(** * DXF export post-processing: a model of [src/dxf.py]

    The development embeds [export_layers_to_dxf] of [src/dxf.py]:
    - the Python text operations the header patch is made of
      ([str.replace], [in], [str.find], slicing, [re.sub]);
    - the header patch itself (lines 158-172) and the file round trip
      around it (lines 151-181);
    - the layer selection (lines 39-55), the extent fold (lines 66-71)
      and the dialogue with the [QgsDxfExport] object (lines 73-148).
    The paths of lines 26-33 and 60-63 play no part in it: the output
    file is one cell of the state.

    A Python [str] is a sequence of code points.  The model keeps the
    code points below 256, one [ascii] each; on that range the classes
    [\s] and [\d] of Python's [re] are the ones written out below. *)

From Stdlib Require Import Ascii String.
From Stdlib Require Import List ZArith Lia Bool Arith Permutation.
From Equations Require Import Equations.
Import ListNotations.

(** ** Python text *)

Definition str := list ascii.

(** [py "..."] reads a literal the way Python reads a string literal of
    the source: backslash-n is the newline character. *)
Fixpoint py (s : string) : str :=
  match s with
  | EmptyString => []
  | String "\" (String "n" s') => "010"%char :: py s'
  | String c s' => c :: py s'
  end.

(** [s.startswith(w)] *)
Fixpoint startswith (w s : str) : bool :=
  match w, s with
  | [], _ => true
  | _ :: _, [] => false
  | x :: w', c :: s' => Ascii.eqb x c && startswith w' s'
  end.

(** [w in s] *)
Fixpoint contains (w s : str) : bool :=
  startswith w s ||
  match s with
  | [] => false
  | _ :: s' => contains w s'
  end.


(** The scan of [str.find]: [i] is the index of the head of [s] in the
    whole text; the result is the lowest index of an occurrence, or -1. *)
Fixpoint find_from (w s : str) (i : Z) : Z :=
  if startswith w s then i
  else match s with
       | [] => (-1)%Z
       | _ :: s' => find_from w s' (i + 1)%Z
       end.

(** [s.find(w, start)]: a negative [start] counts from the end, as in a
    slice; a [start] beyond the end finds nothing. *)
Definition find (w s : str) (start : Z) : Z :=
  let n := Z.of_nat (length s) in
  let start := if (start <? 0)%Z then Z.max 0 (start + n) else start in
  if (n <? start)%Z then (-1)%Z
  else find_from w (skipn (Z.to_nat start) s) start.

(** [s[:i]] and [s[i:]] for an index [0 <= i]. *)
Definition slice_to (s : str) (i : Z) : str := firstn (Z.to_nat i) s.
Definition slice_from (s : str) (i : Z) : str := skipn (Z.to_nat i) s.

(** [s.replace(old, new)]: the occurrences of [old] are taken from the
    left and do not overlap; an empty [old] matches between all
    characters. *)
Equations? replace (old new s : str) : str by wf (length s) lt :=
  replace [] new s := new ++ flat_map (fun c => c :: new) s;
  replace (o :: old') new [] := [];
  replace (o :: old') new (c :: s') with startswith (o :: old') (c :: s') := {
    | true := new ++ replace (o :: old') new (skipn (length old') s');
    | false := c :: replace (o :: old') new s' }.
Proof.
  all: try rewrite length_skipn; simpl; lia.
Qed.

(** ** The fragment of Python's [re] that the pattern uses *)

(** [\s] on a [str] pattern: Unicode white space. *)
Definition is_space (c : ascii) : bool :=
  let n := nat_of_ascii c in
  ((9 <=? n) && (n <=? 13)) || ((28 <=? n) && (n <=? 32))
  || (n =? 133) || (n =? 160).

(** [\d] on a [str] pattern: Unicode decimal digits. *)
Definition is_digit (c : ascii) : bool :=
  let n := nat_of_ascii c in
  (48 <=? n) && (n <=? 57).

Inductive atom : Type :=
| Chr (c : ascii)               (* a literal character *)
| Star (cls : ascii -> bool)    (* class*, greedy *)
| Plus (cls : ascii -> bool).   (* class+, greedy *)

(** A pattern of the shape [(group1)after]. *)
Record pattern : Type := { group1 : list atom; after : list atom }.

Section Backtracking.
Context {R : Type}.

(** Greedy repetition: take one more character of the class first, and
    fall back to the continuation at the current position when the rest
    of the pattern fails further on. *)
Fixpoint star_loop (cls : ascii -> bool) (k : nat -> str -> option R)
    (pos : nat) (s : str) : option R :=
  match s with
  | c :: s' =>
      if cls c then
        match star_loop cls k (S pos) s' with
        | Some r => Some r
        | None => k pos s
        end
      else k pos s
  | [] => k pos s
  end.

(** The backtracking matcher, in continuation-passing style: [pos]
    counts the characters consumed since the start of the match. *)
Fixpoint run (p : list atom) (k : nat -> str -> option R)
    (pos : nat) (s : str) : option R :=
  match p with
  | [] => k pos s
  | Chr c :: p' =>
      match s with
      | x :: s' => if Ascii.eqb x c then run p' k (S pos) s' else None
      | [] => None
      end
  | Star cls :: p' => star_loop cls (run p' k) pos s
  | Plus cls :: p' =>
      match s with
      | x :: s' => if cls x then star_loop cls (run p' k) (S pos) s' else None
      | [] => None
      end
  end.

End Backtracking.

(** [re.match]: the ends of group 1 and of the whole match, counted from
    the start of [s]. *)
Definition re_match (p : pattern) (s : str) : option (nat * nat) :=
  run (group1 p) (fun e1 s1 => run (after p) (fun e _ => Some (e1, e)) e1 s1) 0 s.

(** [re.sub(p, r'\g<1>' + lit, s)]: every match, from the left and
    without overlap, is replaced by the text of its group 1 followed by
    [lit].  A match of the pattern of line 165 is never empty
    ([insunits_match_nonempty] below); the scan passes over an empty
    match as over no match. *)
Equations? re_sub (p : pattern) (lit s : str) : str by wf (length s) lt :=
  re_sub p lit [] := [];
  re_sub p lit (c :: s') with re_match p (c :: s') := {
    | Some (e1, S n) := firstn e1 (c :: s') ++ lit ++ re_sub p lit (skipn n s');
    | _ := c :: re_sub p lit s' }.
Proof.
  all: try rewrite length_skipn; simpl; lia.
Qed.

(** ** The header patch, lines 158-172 *)

(** The pattern of line 165: group 1 is [\$INSUNITS\n\s*70\n\s*], and
    [\d+] follows the group. *)
Definition insunits_pattern : pattern :=
  {| group1 := map Chr (py "$INSUNITS\n") ++ [Star is_space]
               ++ map Chr (py "70\n") ++ [Star is_space];
     after := [Plus is_digit] |}.

Definition units_def : str := py "\n$INSUNITS\n 70\n     6\n".

Definition patch (content : str) : str :=
  let new_content := replace (py "AC1015") (py "AC1021") content in
  if contains (py "$INSUNITS") new_content then
    re_sub insunits_pattern (py "6") new_content
  else
    let header_end :=
      find (py "ENDSEC") new_content (find (py "HEADER") new_content 0) in
    if (-1 <? header_end)%Z then
      slice_to new_content header_end ++ units_def
        ++ slice_from new_content header_end
    else new_content.

(** ** The host: layers and rectangles *)

(** [QgsMapLayer.type()] *)
Inductive LayerType : Type := VectorLayer | RasterLayer | OtherLayer.

(** [QgsRectangle] is a type of the QGIS library: the fold of lines
    66-71 uses its default constructor, [isEmpty] and
    [combineExtentWith] (which updates the receiver: here it returns the
    receiver's new value). *)
Class QgsRectangleApi (Rectangle : Type) : Type := {
  QgsRectangle : Rectangle;
  isEmpty : Rectangle -> bool;
  combineExtentWith : Rectangle -> Rectangle -> Rectangle
}.

(** Modelled from the spec: what the fold needs of the library type
    [QgsRectangle], which is not part of the repository (spec 3 and
    4.2): one explicit empty state, which the default constructor
    yields, and [combineExtentWith] as the smallest rectangle that
    contains both, an empty argument adding nothing. *)
Class QgsRectangleLaws (Rectangle : Type) `{QgsRectangleApi Rectangle} : Prop := {
  default_isEmpty : isEmpty QgsRectangle = true;
  empty_unique : forall r, isEmpty r = true -> r = QgsRectangle;
  combine_empty_r : forall a, combineExtentWith a QgsRectangle = a;
  combine_nonempty : forall a b,
    isEmpty a = false -> isEmpty b = false ->
    isEmpty (combineExtentWith a b) = false;
  combine_comm : forall a b,
    isEmpty a = false -> isEmpty b = false ->
    combineExtentWith a b = combineExtentWith b a;
  combine_assoc : forall a b c,
    isEmpty a = false -> isEmpty b = false -> isEmpty c = false ->
    combineExtentWith (combineExtentWith a b) c
    = combineExtentWith a (combineExtentWith b c)
}.

(** Modelled from the spec: the layers the host exposes (spec 3 and 6),
    each with the answers of [id()], [name()], [type()], [extent()] and
    of its tree node's [isVisible()]. *)
Record Layer (Rectangle : Type) : Type := {
  id : string;
  name : string;
  type : LayerType;
  isVisible : bool;
  extent : Rectangle
}.

Arguments id {Rectangle} _.
Arguments name {Rectangle} _.
Arguments type {Rectangle} _.
Arguments isVisible {Rectangle} _.
Arguments extent {Rectangle} _.

(** Rectangles with integer corners, and no rectangle at all as the
    empty state: an instance of the interface. *)
Definition box : Type := option (Z * Z * Z * Z).

Definition box_union (a b : box) : box :=
  match a, b with
  | None, _ => b
  | _, None => a
  | Some (x0, y0, x1, y1), Some (u0, v0, u1, v1) =>
      Some (Z.min x0 u0, Z.min y0 v0, Z.max x1 u1, Z.max y1 v1)
  end.

#[export] Instance box_api : QgsRectangleApi box := {|
  QgsRectangle := None;
  isEmpty := fun r => match r with None => true | Some _ => false end;
  combineExtentWith := box_union
|}.

Section Layers.

Context {Rectangle : Type} `{QgsRectangleApi Rectangle}.

(** Modelled from the spec: the project of the host, as the list of its
    layers in the order the host yields them; [mapLayersByName] is the
    exact match on the name (spec 4.1), [findLayers] the layer tree. *)
Definition QgsProject : Type := list (Layer Rectangle).

Definition mapLayersByName (project : QgsProject) (layer_name : string)
  : list (Layer Rectangle) :=
  filter (fun l => String.eqb (name l) layer_name) project.

Definition findLayers (project : QgsProject) : list (Layer Rectangle) := project.

(** Lines 42-45: the loop over the requested names. *)
Definition resolve_names (project : QgsProject) (names : list string)
  : list (Layer Rectangle) :=
  fold_left
    (fun acc layer_name =>
       match mapLayersByName project layer_name with
       | l0 :: _ => acc ++ [l0]
       | [] => acc
       end)
    names [].

(** Lines 48-51: the loop over the layer tree. *)
Definition visible_layers (project : QgsProject) : list (Layer Rectangle) :=
  fold_left
    (fun acc layer => if isVisible layer then acc ++ [layer] else acc)
    (findLayers project) [].

(** Lines 39-51.  [selected_layers] is [None] or a list of names; an
    empty list is false in Python, like [None]. *)
Definition layers_to_export (project : QgsProject)
    (selected_layers : option (list string)) : list (Layer Rectangle) :=
  match selected_layers with
  | Some ((_ :: _) as names) => resolve_names project names
  | _ => visible_layers project
  end.

(** Lines 68-71: one turn of the loop, on the extent so far and the
    extent of the next layer. *)
Definition combine_step (ext layer_extent : Rectangle) : Rectangle :=
  if isEmpty ext then layer_extent
  else combineExtentWith ext layer_extent.

(** Lines 66-71. *)
Definition combine (layers : list (Layer Rectangle)) : Rectangle :=
  fold_left (fun ext layer => combine_step ext (extent layer))
    layers QgsRectangle.

(** A Python [dict] keeps the order of first insertion of its keys. *)
Fixpoint dict_set {V : Type} (k : string) (v : V) (d : list (string * V))
  : list (string * V) :=
  match d with
  | [] => [(k, v)]
  | (k', v') :: d' =>
      if String.eqb k' k then (k, v) :: d' else (k', v') :: dict_set k v d'
  end.

(** Lines 102-105. *)
Definition layers_dict (layers : list (Layer Rectangle))
  : list (string * Layer Rectangle) :=
  fold_left
    (fun d layer =>
       match type layer with
       | VectorLayer => dict_set (id layer) layer d
       | _ => d
       end)
    layers [].

End Layers.

(** ** The dialogue with the exporter *)

Inductive method : Type :=
| m_setSymbologyScale | m_setSourceCrs | m_setCrs
| m_setVectorLayers | m_setLayers.

(** The calls made on the [QgsDxfExport] object, the constructor first;
    layers are passed by their ids. *)
Inductive call : Type :=
| new_QgsDxfExport
| setSymbologyScale (scale : Z)
| setSourceCrs (crs : string)
| setCrs (crs : string)
| setMapSettings
| setVectorLayers (ids : list string)
| setLayers (ids : list string)
| writeToFile_device (encoding : string)
| writeToFile_path.

Inductive message : Type :=
| msg_no_layers                 (* line 54 *)
| msg_found (n : nat)           (* line 57 *)
| warn_scale                    (* line 82 *)
| warn_crs                      (* line 93 *)
| warn_map_settings             (* line 100 *)
| msg_no_vector_layers          (* line 108 *)
| warn_layers                   (* line 118 *)
| msg_cannot_open               (* line 135 *)
| msg_first_method_failed       (* line 138 *)
| msg_second_method_failed      (* line 143 *)
| msg_export_error              (* line 147 *)
| msg_version_changed           (* line 178 *)
| msg_units_set                 (* line 179 *)
| warn_patch                    (* line 181 *)
| msg_created                   (* line 186 *)
| msg_unexpected.               (* line 194 *)

Inductive event : Type :=
| Call (c : call)
| Print (m : message).

(** What [export_layers_to_dxf] returns: nothing (line 55), [False] or
    [True]. *)
Inductive retval : Type := RNone | RFalse | RTrue.

(** What a call of [writeToFile] does: it raises, or it returns a value
    that is [None] or not. *)
Inductive answer : Type := Raises | Returns (is_None : bool).

(** The surroundings of one run: what the exporter object has and does,
    and what is on disk after it wrote. *)
Record World : Type := {
  hasattr : method -> bool;
  raises : call -> bool;        (* the constructor and the setters *)
  mapSettings_raises : bool;     (* [iface.mapCanvas().mapSettings()] *)
  QFile_raises : bool;           (* the import and constructor, lines 126-129 *)
  open_ok : bool;                (* [output_file.open(...)] *)
  write_device : answer;         (* [writeToFile(output_file, "UTF-8")] *)
  write_path : answer;           (* [writeToFile(path)] *)
  exported : option str;         (* the text the exporter leaves in the file,
                                    if line 155 can read it *)
  writable : bool;               (* whether lines 175-176 succeed *)
  failed_write_leaves : option str
                                 (* when they fail: [None] when the [open] of
                                    line 175 failed, which leaves the file as
                                    it was; otherwise the text in the file,
                                    which that [open] has emptied and the
                                    write of line 176 may have begun to fill *)
}.

(** The state threaded through the run: the events so far and the text
    of the output file. *)
Record state : Type := { log : list event; disk : option str }.

Inductive flow (A : Type) : Type :=
| Next (a : A)
| Return (r : retval).

Arguments Next {A} a.
Arguments Return {A} r.

Definition M (A : Type) : Type := state -> flow A * state.

Definition ret {A : Type} (a : A) : M A := fun st => (Next a, st).

Definition bind {A B : Type} (c : M A) (k : A -> M B) : M B :=
  fun st =>
    match c st with
    | (Next a, st') => k a st'
    | (Return r, st') => (Return r, st')
    end.

Definition return_ {A : Type} (r : retval) : M A := fun st => (Return r, st).

Definition emit (e : event) : M unit :=
  fun st => (Next tt, {| log := log st ++ [e]; disk := disk st |}).

Definition print (m : message) : M unit := emit (Print m).

Definition read_file : M (option str) := fun st => (Next (disk st), st).

Definition write_file (text : option str) : M unit :=
  fun st => (Next tt, {| log := log st; disk := text |}).

Declare Scope py_scope.
Delimit Scope py_scope with py.
Notation "x <- c ;; k" := (bind c (fun x => k))
  (at level 61, c at next level, right associativity) : py_scope.
Notation "c ;; k" := (bind c (fun _ => k))
  (at level 61, right associativity) : py_scope.

Section Dialogue.

Context {Rectangle : Type} `{QgsRectangleApi Rectangle}.
Variable w : World.

Open Scope py_scope.

(** A call on the exporter: it is recorded, and the result tells whether
    it raised. *)
Definition invoke (c : call) : M bool :=
  emit (Call c) ;; ret (raises w c).

(** [try: c  except Exception: print(warning)] around one call. *)
Definition best_effort (c : call) (warning : message) : M unit :=
  raised <- invoke c ;;
  if raised then print warning else ret tt.

(** Lines 151-181: read the file, patch the text, write it back. *)
Definition postprocess : M unit :=
  file <- read_file ;;
  match file with
  | None => print warn_patch
  | Some content =>
      let new_content := patch content in
      if writable w then
        write_file (Some new_content) ;;
        print msg_version_changed ;;
        print msg_units_set
      else
        match failed_write_leaves w with
        | Some torn => write_file (Some torn) ;; print warn_patch
        | None => print warn_patch
        end
  end.

(** A call of [writeToFile]: when it returns, the file holds what the
    exporter wrote; a call that raises is one that the exporter refuses
    (another signature, lines 123-125 and 140), and writes nothing. *)
Definition writeToFile (c : call) (a : answer) : M answer :=
  emit (Call c) ;;
  match a with
  | Raises => ret Raises
  | Returns is_None => write_file (exported w) ;; ret a
  end.

(** Lines 121-191. *)
Definition export_file : M retval :=
  result <-
    (if QFile_raises w then ret Raises
     else if open_ok w then
       (* line 131: opening for writing creates the file, or empties it *)
       write_file (Some []) ;;
       writeToFile (writeToFile_device "UTF-8") (write_device w)
     else
       print msg_cannot_open ;; return_ RFalse) ;;
  result <-
    match result with
    | Returns is_None => ret is_None
    | Raises =>
        print msg_first_method_failed ;;
        result <- writeToFile writeToFile_path (write_path w) ;;
        match result with
        | Returns is_None => ret is_None
        | Raises => print msg_second_method_failed ;; return_ RFalse
        end
    end ;;
  if (result : bool) then print msg_export_error ;; return_ RFalse
  else
    postprocess ;;
    print msg_created ;;
    ret RTrue.

(** Lines 77-100: the scale, the coordinate system and the map
    settings, each on a best-effort basis. *)
Definition configure (scale : Z) : M unit :=
  (if hasattr w m_setSymbologyScale
   then best_effort (setSymbologyScale scale) warn_scale
   else ret tt) ;;
  (if hasattr w m_setSourceCrs then best_effort (setSourceCrs "EPSG:5514") warn_crs
   else if hasattr w m_setCrs then best_effort (setCrs "EPSG:5514") warn_crs
   else ret tt) ;;
  (if mapSettings_raises w then print warn_map_settings
   else best_effort setMapSettings warn_map_settings).

(** Lines 111-118: the vector layers are handed over. *)
Definition hand_over (values : list string) : M unit :=
  if hasattr w m_setVectorLayers then best_effort (setVectorLayers values) warn_layers
  else if hasattr w m_setLayers then best_effort (setLayers values) warn_layers
  else ret tt.

(** Lines 73-195. *)
Definition run_exporter (layers : list (Layer Rectangle)) (scale : Z) : M retval :=
  raised <- invoke new_QgsDxfExport ;;
  if raised then print msg_unexpected ;; ret RFalse
  else
    configure scale ;;
    let d := layers_dict layers in
    match d with
    | [] => print msg_no_vector_layers ;; ret RFalse
    | _ :: _ =>
        hand_over (map (fun kv => id (snd kv)) d) ;;
        export_file
    end.

(** Lines 36-195: the whole function, from the project to the value
    returned and the final state. *)
Definition export_layers_to_dxf (project : QgsProject)
    (selected_layers : option (list string)) (scale : Z) : retval * state :=
  let layers := layers_to_export project selected_layers in
  let start := {| log := []; disk := None |} in
  match layers with
  | [] =>
      match print msg_no_layers start with
      | (_, st) => (RNone, st)
      end
  | _ :: _ =>
      let extent := combine layers in
      match (print (msg_found (length layers)) ;; run_exporter layers scale) start with
      | (Next r, st) => (r, st)
      | (Return r, st) => (r, st)
      end
  end.

End Dialogue.

Definition scenario_A : str :=
  py "HEADER\n$INSUNITS\n 70\n     0\nENDSEC\n  1\nAC1015\n".

Definition scenario_B : str :=
  py "HEADER\nENDSEC\n  1\nAC1015\n".

(** [sep.join(segs)] *)
Fixpoint join (sep : str) (segs : list str) : str :=
  match segs with
  | [] => []
  | [a] => a
  | a :: rest => a ++ sep ++ join sep rest
  end.

(** The document has a [HEADER] marker and an [ENDSEC] marker after it. *)
Definition has_header_pair (s : str) : Prop :=
  exists a b c, s = a ++ py "HEADER" ++ b ++ py "ENDSEC" ++ c.

(** Two characters that are equal, or both decimal digits. *)
Definition same_but_digits (a b : ascii) : Prop :=
  a = b \/ (is_digit a = true /\ is_digit b = true).

(** A word without decimal digits. *)
Definition digit_free (w : str) : Prop := Forall (fun x => is_digit x = false) w.

(** The longest prefix of [s] in a class, and what follows it. *)
Fixpoint take_while (cls : ascii -> bool) (s : str) : str :=
  match s with
  | c :: s' => if cls c then c :: take_while cls s' else []
  | [] => []
  end.

Fixpoint drop_while (cls : ascii -> bool) (s : str) : str :=
  match s with
  | c :: s' => if cls c then drop_while cls s' else s
  | [] => []
  end.

(** [s] does not begin with a character of the class. *)
Definition stops (cls : ascii -> bool) (s : str) : Prop :=
  match s with
  | c :: _ => cls c = false
  | [] => True
  end.

(** Texts of white space, and of decimal digits. *)
Definition spaces (ws : str) : Prop := Forall (fun c => is_space c = true) ws.
Definition digits (ds : str) : Prop := Forall (fun c => is_digit c = true) ds.

(** The text of a unit record: the name line, the group code 70 after
    the white space [ws1], and the value after the white space [ws2]. *)
Definition unit_record (ws1 ws2 value : str) : str :=
  py "$INSUNITS\n" ++ ws1 ++ py "70\n" ++ ws2 ++ value.

(** What the pattern of line 165 reads at the head of [s], written as a
    scan without backtracking: the two runs of white space, the digits,
    and the rest of the text. *)
Definition record_at (s : str) : option (str * str * str * str) :=
  if startswith (py "$INSUNITS\n") s then
    let s1 := skipn 10 s in
    let s2 := drop_while is_space s1 in
    if startswith (py "70\n") s2 then
      let s3 := skipn 3 s2 in
      let s4 := drop_while is_space s3 in
      match take_while is_digit s4 with
      | [] => None
      | ds => Some (take_while is_space s1, take_while is_space s3,
                    ds, drop_while is_digit s4)
      end
    else None
  else None.

(** The two steps of the patch: line 158 and line 166. *)
Abbreviation version_rewrite := (replace (py "AC1015") (py "AC1021")).
Abbreviation unit_sub := (re_sub insunits_pattern (py "6")).

(** *** The file round trip, as the specification words it *)

(** A world in which every call is there and succeeds, and the exporter
    leaves [text] in the file. *)
Definition obliging (text : str) : World :=
  {| hasattr := fun _ => true;
     raises := fun _ => false;
     mapSettings_raises := false;
     QFile_raises := false;
     open_ok := true;
     write_device := Returns false;
     write_path := Returns false;
     exported := Some text;
     writable := true;
     failed_write_leaves := None |}.

(** The state after lines 151-181 ran on a file that holds [content]. *)
Definition patched_file (w : World) (content : str) : state :=
  snd (postprocess w {| log := []; disk := Some content |}).

Definition failure_signalled (st : state) : Prop :=
  In (Print warn_patch) (log st).


(** "MalformedHeader is raised, and only raised, when no HEADER...ENDSEC
    pair exists in the document." *)
Definition malformed_header_rule (w : World) (content : str) : Prop :=
  failure_signalled (patched_file w content) <-> ~ has_header_pair content.

(** *** The run on the host, as the specification words it *)

(** The calls among the events of a run. *)
Definition calls (l : list event) : list call :=
  flat_map (fun e => match e with Call c => [c] | Print _ => [] end) l.

(** The constructor and the calls that configure the exporter, as
    opposed to those that hand it layers or make it write. *)
Definition setup_call (c : call) : bool :=
  match c with
  | new_QgsDxfExport | setSymbologyScale _ | setSourceCrs _ | setCrs _
  | setMapSettings => true
  | setVectorLayers _ | setLayers _ | writeToFile_device _
  | writeToFile_path => false
  end.

Definition no_vector_layer {Rectangle : Type} (layers : list (Layer Rectangle))
  : Prop :=
  Forall (fun l => type l <> VectorLayer) layers.

(** "If zero vector layers remain, the operation fails without
    contacting the collaborator." *)
Definition fails_without_contact {Rectangle : Type} `{QgsRectangleApi Rectangle}
    (w : World) (project : list (Layer Rectangle))
    (selected_layers : option (list string)) (scale : Z) : Prop :=
  layers_to_export project selected_layers <> [] ->
  no_vector_layer (layers_to_export project selected_layers) ->
  fst (export_layers_to_dxf w project selected_layers scale) = RFalse
  /\ calls (log (snd (export_layers_to_dxf w project selected_layers scale))) = [].

(** The layer that a requested name resolves to, as a list of at most
    one layer: the first of the project that bears the name. *)
Definition first_named {Rectangle : Type} (project : list (Layer Rectangle))
    (layer_name : string) : list (Layer Rectangle) :=
  match List.find (fun l => String.eqb (name l) layer_name) project with
  | Some l => [l]
  | None => []
  end.

(** Whether some layer of the project bears the name. *)
Definition resolves {Rectangle : Type} (project : list (Layer Rectangle))
    (layer_name : string) : bool :=
  existsb (fun l => String.eqb (name l) layer_name) project.

(** Sample layers. *)
Definition roads : Layer box :=
  {| id := "roads_1"; name := "roads"; type := VectorLayer;
     isVisible := true; extent := Some (0, 0, 10, 10)%Z |}.

Definition roads_copy : Layer box :=
  {| id := "roads_2"; name := "roads"; type := VectorLayer;
     isVisible := false; extent := Some (5, 5, 20, 8)%Z |}.

Definition parcels : Layer box :=
  {| id := "parcels_1"; name := "parcels"; type := VectorLayer;
     isVisible := true; extent := Some (-3, 2, 4, 30)%Z |}.

Definition ortofoto : Layer box :=
  {| id := "ortofoto_1"; name := "ortofoto"; type := RasterLayer;
     isVisible := true; extent := Some (-100, -100, 100, 100)%Z |}.

(** *** Further notions, for the properties of the whole run *)

(** [d.get(k)], on a [dict] as [dict_set] builds it. *)
Fixpoint dict_get {V : Type} (k : string) (d : list (string * V)) : option V :=
  match d with
  | [] => None
  | (k', v) :: d' => if String.eqb k' k then Some v else dict_get k d'
  end.

(** The test of line 104. *)
Definition is_vector {Rectangle : Type} (l : Layer Rectangle) : bool :=
  match type l with
  | VectorLayer => true
  | _ => false
  end.

(** A layer with another extent, all else being kept. *)
Definition with_extent {Rectangle Rectangle' : Type}
    (f : Layer Rectangle -> Rectangle') (l : Layer Rectangle) : Layer Rectangle' :=
  {| id := id l; name := name l; type := type l; isVisible := isVisible l;
     extent := f l |}.

(** What a run returned, at its end or by a [return] on the way. *)
Definition returned (x : flow retval * state) : retval :=
  match fst x with
  | Next r => r
  | Return r => r
  end.

(** Two worlds in which the constructor and the file operations of the
    export behave alike, whatever the setters do. *)
Definition same_writing (w w' : World) : Prop :=
  raises w new_QgsDxfExport = raises w' new_QgsDxfExport
  /\ QFile_raises w = QFile_raises w'
  /\ open_ok w = open_ok w'
  /\ write_device w = write_device w'
  /\ write_path w = write_path w'.

(** A call of [writeToFile], by either method. *)
Definition write_call (c : call) : bool :=
  match c with
  | writeToFile_device _ | writeToFile_path => true
  | _ => false
  end.

(** A text without its decimal digits. *)
Definition skeleton (s : str) : str := filter (fun c => negb (is_digit c)) s.


(** A world in which the exporter has none of the optional methods and
    the map settings cannot be had; the file is written all the same. *)
Definition reluctant (text : str) : World :=
  {| hasattr := fun _ => false;
     raises := fun c => match c with new_QgsDxfExport => false | _ => true end;
     mapSettings_raises := true;
     QFile_raises := false;
     open_ok := true;
     write_device := Returns false;
     write_path := Returns false;
     exported := Some text;
     writable := true;
     failed_write_leaves := None |}.

(** What the configuration of lines 77-100 may leave in the log. *)
Definition configure_event (w : World) (scale : Z) (e : event) : Prop :=
  (e = Call (setSymbologyScale scale) /\ hasattr w m_setSymbologyScale = true)
  \/ (e = Call (setSourceCrs "EPSG:5514") /\ hasattr w m_setSourceCrs = true)
  \/ (e = Call (setCrs "EPSG:5514") /\ hasattr w m_setSourceCrs = false
      /\ hasattr w m_setCrs = true)
  \/ (e = Call setMapSettings /\ mapSettings_raises w = false)
  \/ e = Print warn_scale \/ e = Print warn_crs \/ e = Print warn_map_settings.

(** What the hand-over of lines 111-118 may leave in the log. *)
Definition hand_over_event (w : World) (ids : list string) (e : event) : Prop :=
  (e = Call (setVectorLayers ids) /\ hasattr w m_setVectorLayers = true)
  \/ (e = Call (setLayers ids) /\ hasattr w m_setVectorLayers = false
      /\ hasattr w m_setLayers = true)
  \/ e = Print warn_layers.

(** What lines 121-187 may leave in the log. *)
Definition export_file_event (w : World) (e : event) : Prop :=
  (e = Call (writeToFile_device "UTF-8") /\ QFile_raises w = false
   /\ open_ok w = true)
  \/ (e = Call writeToFile_path
      /\ (QFile_raises w = true \/ open_ok w = true /\ write_device w = Raises))
  \/ (exists m, e = Print m).

(** The ways a run that found layers to export can go: the constructor
    raises (line 193), no vector layer is among them (line 107), or the
    file is exported (line 121) after the configuration and the
    hand-over. *)
Inductive run_shape {Rectangle : Type} (w : World) (scale : Z)
    (layers : list (Layer Rectangle)) : retval * state -> Prop :=
| shape_unexpected :
    raises w new_QgsDxfExport = true ->
    run_shape w scale layers
      (RFalse, {| log := [Print (msg_found (length layers));
                          Call new_QgsDxfExport; Print msg_unexpected];
                  disk := None |})
| shape_no_vector (cfg : list event) :
    raises w new_QgsDxfExport = false ->
    layers_dict layers = [] ->
    Forall (configure_event w scale) cfg ->
    run_shape w scale layers
      (RFalse, {| log := Print (msg_found (length layers))
                         :: Call new_QgsDxfExport
                         :: cfg ++ [Print msg_no_vector_layers];
                  disk := None |})
| shape_export (cfg ho start : list event) :
    raises w new_QgsDxfExport = false ->
    layers_dict layers <> [] ->
    Forall (configure_event w scale) cfg ->
    Forall (hand_over_event w (map fst (layers_dict layers))) ho ->
    start = Print (msg_found (length layers))
            :: Call new_QgsDxfExport :: cfg ++ ho ->
    run_shape w scale layers
      (returned (export_file w {| log := start; disk := None |}),
       snd (export_file w {| log := start; disk := None |})).


(** A world in which the export succeeds and the write of line 176
    fails, after the [open] of line 175 has emptied the file. *)
Definition torn_write (text : str) : World :=
  {| hasattr := fun _ => true;
     raises := fun _ => false;
     mapSettings_raises := false;
     QFile_raises := false;
     open_ok := true;
     write_device := Returns false;
     write_path := Returns false;
     exported := Some text;
     writable := false;
     failed_write_leaves := Some [] |}.

(** The calls that a run may make, each with what the code checks
    before it makes it: the constructor comes first and the rest only
    when it did not raise; a setter is called when the exporter has it,
    the second of a pair only when the exporter lacks the first, with
    the arguments of the source; the vector layers are handed over by
    the ids under which the dictionary holds them; [writeToFile] is
    called with the device once the file is open, and with the path
    when the first way raised. *)
Definition permitted {Rectangle : Type} (w : World) (scale : Z)
    (layers : list (Layer Rectangle)) (c : call) : Prop :=
  (c = new_QgsDxfExport \/ raises w new_QgsDxfExport = false)
  /\ match c with
     | new_QgsDxfExport => True
     | setSymbologyScale s => s = scale /\ hasattr w m_setSymbologyScale = true
     | setSourceCrs crs =>
         crs = "EPSG:5514"%string /\ hasattr w m_setSourceCrs = true
     | setCrs crs =>
         crs = "EPSG:5514"%string /\ hasattr w m_setSourceCrs = false
         /\ hasattr w m_setCrs = true
     | setMapSettings => mapSettings_raises w = false
     | setVectorLayers ids =>
         ids = map fst (layers_dict layers) /\ ids <> []
         /\ hasattr w m_setVectorLayers = true
     | setLayers ids =>
         ids = map fst (layers_dict layers) /\ ids <> []
         /\ hasattr w m_setVectorLayers = false /\ hasattr w m_setLayers = true
     | writeToFile_device encoding =>
         encoding = "UTF-8"%string /\ layers_dict layers <> []
         /\ QFile_raises w = false /\ open_ok w = true
     | writeToFile_path =>
         layers_dict layers <> []
         /\ (QFile_raises w = true \/ open_ok w = true /\ write_device w = Raises)
     end.

(** The messages of lines 178-186, printed after the export. *)
Definition after_export (e : event) : bool :=
  match e with
  | Print msg_version_changed | Print msg_units_set | Print warn_patch
  | Print msg_created => true
  | _ => false
  end.

(** Whether the pattern of line 165 reads a unit record somewhere in
    the text. *)
Fixpoint has_unit_record (s : str) : bool :=
  match record_at s with
  | Some _ => true
  | None =>
      match s with
      | [] => false
      | _ :: s' => has_unit_record s'
      end
  end.

(** *** The unit directive, as the specification words it *)






(** ** Occurrences of a word in a text *)

Lemma startswith_app (w t : str) : startswith w (w ++ t) = true.
Proof.
  induction w as [|x w IH]; simpl; [reflexivity|].
  rewrite Ascii.eqb_refl. exact IH.
Qed.

Lemma startswith_true (w s : str) :
  startswith w s = true -> exists t, s = w ++ t.
Proof.
  revert s. induction w as [|x w IH]; intros s Hs.
  - exists s. reflexivity.
  - destruct s as [|c s]; simpl in Hs; [discriminate|].
    apply andb_true_iff in Hs. destruct Hs as [Hx Hw].
    apply Ascii.eqb_eq in Hx. subst c.
    destruct (IH s Hw) as [t ->]. exists t. reflexivity.
Qed.

Lemma startswith_prolong (w a b : str) :
  startswith w a = true -> startswith w (a ++ b) = true.
Proof.
  intros Ha. destruct (startswith_true _ _ Ha) as [t ->].
  rewrite <- app_assoc. apply startswith_app.
Qed.

(** A character that is not in [w] cuts every occurrence of [w]. *)
Lemma startswith_sep (w a b : str) (c : ascii) :
  ~ In c w -> startswith w (a ++ c :: b) = startswith w a.
Proof.
  revert a. induction w as [|x w IH]; intros a Hc; [destruct a; reflexivity|].
  destruct a as [|y a]; simpl.
  - destruct (Ascii.eqb_spec x c) as [->|]; [|reflexivity].
    exfalso. apply Hc. left. reflexivity.
  - rewrite IH; [reflexivity|]. intros Hin. apply Hc. right. exact Hin.
Qed.

Lemma contains_sep (w a b : str) (c : ascii) :
  ~ In c w -> contains w (a ++ c :: b) = contains w a || contains w b.
Proof.
  intros Hc. induction a as [|y a IH].
  - pose proof (startswith_sep w [] b c Hc) as E. cbn [app] in *.
    cbn [contains]. rewrite E, orb_false_r. reflexivity.
  - pose proof (startswith_sep w (y :: a) b c Hc) as E. cbn [app] in *.
    cbn [contains]. rewrite IH, E.
    rewrite orb_assoc. reflexivity.
Qed.



Lemma contains_app_l (w a b : str) :
  contains w a = true -> contains w (a ++ b) = true.
Proof.
  induction a as [|y a IH]; cbn [contains]; intros Ha.
  - rewrite orb_false_r in Ha. destruct w; [|discriminate].
    destruct b; reflexivity.
  - apply orb_true_iff in Ha. destruct Ha as [Ha|Ha].
    + change ((y :: a) ++ b) with (y :: (a ++ b)). cbn [contains].
      change (y :: a ++ b) with ((y :: a) ++ b).
      rewrite (startswith_prolong _ _ b Ha). reflexivity.
    + change ((y :: a) ++ b) with (y :: (a ++ b)). cbn [contains].
      rewrite (IH Ha). apply orb_true_r.
Qed.

Lemma contains_app_r (w a b : str) :
  contains w b = true -> contains w (a ++ b) = true.
Proof.
  intros Hb. induction a as [|y a IH]; [exact Hb|].
  change ((y :: a) ++ b) with (y :: (a ++ b)). cbn [contains].
  rewrite IH. apply orb_true_r.
Qed.

Lemma contains_app_false (w a b : str) :
  contains w (a ++ b) = false -> contains w a = false /\ contains w b = false.
Proof.
  intros Hab. split.
  - destruct (contains w a) eqn:Ha; [|reflexivity].
    rewrite (contains_app_l _ _ b Ha) in Hab. discriminate.
  - destruct (contains w b) eqn:Hb; [|reflexivity].
    rewrite (contains_app_r _ a _ Hb) in Hab. discriminate.
Qed.

Lemma contains_startswith (w s : str) :
  startswith w s = true -> contains w s = true.
Proof. intros Hs. destruct s; cbn [contains]; rewrite Hs; reflexivity. Qed.

(** A word does not occur in a text shorter than itself. *)
Lemma startswith_short (w s : str) :
  length s < length w -> startswith w s = false.
Proof.
  revert s. induction w as [|x w IH]; intros s Hlen; [simpl in Hlen; lia|].
  destruct s as [|c s]; [reflexivity|]. simpl in *.
  rewrite IH by lia. apply andb_false_r.
Qed.

Lemma contains_short (w s : str) :
  length s < length w -> contains w s = false.
Proof.
  induction s as [|c s IH]; intros Hlen; cbn [contains].
  - rewrite startswith_short by exact Hlen. reflexivity.
  - rewrite startswith_short by exact Hlen. rewrite IH; [reflexivity|].
    simpl in Hlen. lia.
Qed.


(** ** [str.replace] *)

Lemma replace_miss (o : ascii) (old' new s' : str) (c : ascii) :
  startswith (o :: old') (c :: s') = false ->
  replace (o :: old') new (c :: s') = c :: replace (o :: old') new s'.
Proof. intros Hs. simp replace. rewrite Hs. reflexivity. Qed.

Lemma replace_hit (o : ascii) (old' new t : str) :
  replace (o :: old') new ((o :: old') ++ t) = new ++ replace (o :: old') new t.
Proof.
  change ((o :: old') ++ t) with (o :: (old' ++ t)). simp replace.
  change (o :: old' ++ t) with ((o :: old') ++ t).
  rewrite startswith_app. cbn [replace_unfold_clause_3].
  rewrite skipn_app, Nat.sub_diag, skipn_all. reflexivity.
Qed.

(** Induction along the scan of [replace]: at each position the text
    either starts with [old], which is consumed whole, or it does not,
    and one character is passed on. *)
Lemma replace_scan_ind (o : ascii) (old' : str) (P : str -> Prop) :
  P [] ->
  (forall t, P t -> P ((o :: old') ++ t)) ->
  (forall c s, startswith (o :: old') (c :: s) = false -> P s -> P (c :: s)) ->
  forall s, P s.
Proof.
  intros Hnil Hhit Hmiss s.
  remember (length s) as n eqn:Hn. revert s Hn.
  induction n as [n IH] using lt_wf_ind. intros s Hn.
  destruct s as [|c s]; [exact Hnil|].
  destruct (startswith (o :: old') (c :: s)) eqn:Hs.
  - destruct (startswith_true _ _ Hs) as [t Ht]. rewrite Ht.
    apply Hhit. apply (IH (length t)); [|reflexivity].
    subst n. rewrite Ht, length_app. simpl. lia.
  - apply Hmiss; [exact Hs|]. apply (IH (length s)); [|reflexivity].
    subst n. simpl. lia.
Qed.

Lemma replace_absent (o : ascii) (old' new s : str) :
  contains (o :: old') s = false -> replace (o :: old') new s = s.
Proof.
  induction s as [|c s IH]; intros Hs; [simp replace; reflexivity|].
  cbn [contains] in Hs. apply orb_false_iff in Hs. destruct Hs as [Hc Hs].
  rewrite replace_miss by exact Hc. rewrite IH by exact Hs. reflexivity.
Qed.

(** When [old] and [new] begin with the same character, a word without
    that character occurs at the head of the result exactly when it
    occurs at the head of the text. *)
Lemma startswith_replace (o : ascii) (old' new' w s : str) :
  ~ In o w ->
  startswith w (replace (o :: old') (o :: new') s) = startswith w s.
Proof.
  revert s. induction w as [|x w IH]; intros s Ho; [reflexivity|].
  assert (Hx : Ascii.eqb x o = false).
  { apply Ascii.eqb_neq. intros ->. apply Ho. left. reflexivity. }
  destruct s as [|c s]; [simp replace; reflexivity|].
  destruct (startswith (o :: old') (c :: s)) eqn:Hs.
  - destruct (startswith_true _ _ Hs) as [t Ht]. rewrite Ht, replace_hit.
    simpl. rewrite Hx. reflexivity.
  - rewrite replace_miss by exact Hs. simpl. rewrite IH; [reflexivity|].
    intros Hin. apply Ho. right. exact Hin.
Qed.

Lemma startswith_sep_head (x : ascii) (w' a u : str) (c : ascii) :
  ~ In x w' ->
  startswith (x :: w') ((c :: a) ++ x :: u) = startswith (x :: w') (c :: a).
Proof.
  intros Hx. simpl. rewrite startswith_sep by exact Hx. reflexivity.
Qed.

(** An occurrence of [old] after a text without one is the next one the
    scan meets, provided that the first character of [old] is not
    repeated in it. *)
Lemma replace_seg (x : ascii) (w' new a t : str) :
  ~ In x w' ->
  contains (x :: w') a = false ->
  replace (x :: w') new (a ++ (x :: w') ++ t)
  = a ++ new ++ replace (x :: w') new t.
Proof.
  intros Hx. induction a as [|c a IH]; intros Ha.
  - apply replace_hit.
  - cbn [contains] in Ha. apply orb_false_iff in Ha. destruct Ha as [Hc Ha].
    change ((c :: a) ++ (x :: w') ++ t) with (c :: (a ++ (x :: w') ++ t)).
    rewrite replace_miss.
    + rewrite IH by exact Ha. reflexivity.
    + change (c :: a ++ (x :: w') ++ t) with ((c :: a) ++ x :: (w' ++ t)).
      rewrite startswith_sep_head by exact Hx. exact Hc.
Qed.

Lemma replace_join (x : ascii) (w' new : str) (segs : list str) :
  ~ In x w' ->
  Forall (fun seg => contains (x :: w') seg = false) segs ->
  replace (x :: w') new (join (x :: w') segs) = join new segs.
Proof.
  intros Hx Hsegs. induction Hsegs as [|a rest Ha Hrest IH].
  - simp replace. reflexivity.
  - destruct rest as [|b rest].
    + cbn [join]. apply replace_absent. exact Ha.
    + change (join (x :: w') (a :: b :: rest))
        with (a ++ (x :: w') ++ join (x :: w') (b :: rest)).
      rewrite replace_seg by assumption. rewrite IH. reflexivity.
Qed.

(** Every text is cut at its occurrences of [old] into pieces that
    hold none. *)
Lemma split_at_occurrences (o : ascii) (old' s : str) :
  exists segs, segs <> [] /\ s = join (o :: old') segs
               /\ Forall (fun seg => contains (o :: old') seg = false) segs.
Proof.
  induction s as [| t IH | c s Hc IH] using (replace_scan_ind o old').
  - exists [[]]. repeat split; [discriminate|]. repeat constructor.
  - destruct IH as (segs & Hne & -> & Hfree).
    exists ([] :: segs). repeat split; [discriminate| |].
    + destruct segs; [contradiction|reflexivity].
    + constructor; [reflexivity|exact Hfree].
  - destruct IH as (segs & Hne & -> & Hfree).
    destruct segs as [|a rest]; [contradiction|].
    exists ((c :: a) :: rest). repeat split; [discriminate| |].
    + destruct rest; reflexivity.
    + inversion Hfree as [|? ? Ha Hrest]; subst.
      constructor; [|exact Hrest].
      cbn [contains]. rewrite Ha, orb_false_r.
      destruct (startswith (o :: old') (c :: a)) eqn:E; [|reflexivity].
      rewrite <- Hc. symmetry.
      destruct rest as [|b rest]; [exact E|].
      change (join (o :: old') (a :: b :: rest))
        with (a ++ (o :: old') ++ join (o :: old') (b :: rest)).
      exact (startswith_prolong _ (c :: a) _ E).
Qed.

(** No occurrence of [old] is left when [new] begins like [old], the
    first character of [old] is not repeated in it, and [new] brings no
    occurrence of its own. *)
Lemma replace_complete (o : ascii) (old' new' : str) :
  ~ In o old' ->
  (forall r, contains (o :: old') ((o :: new') ++ r) = contains (o :: old') r) ->
  forall s, contains (o :: old') (replace (o :: old') (o :: new') s) = false.
Proof.
  intros Ho Hnew s.
  induction s as [| t IH | c s Hc IH] using (replace_scan_ind o old').
  - simp replace. reflexivity.
  - rewrite replace_hit, Hnew. exact IH.
  - rewrite replace_miss by exact Hc.
    cbn [contains]. rewrite IH, orb_false_r.
    cbn [startswith]. rewrite startswith_replace by exact Ho. exact Hc.
Qed.

(** *** The version rewrite of line 158 *)

Lemma version_rewrite_complete (s : str) :
  contains (py "AC1015") (replace (py "AC1015") (py "AC1021") s) = false.
Proof.
  apply (replace_complete "A" (py "C1015") (py "C1021")).
  - cbn. intuition discriminate.
  - intros r. cbn. reflexivity.
Qed.

(** ** The matcher on the pattern of line 165 *)

Lemma take_drop_while (cls : ascii -> bool) (s : str) :
  take_while cls s ++ drop_while cls s = s.
Proof.
  induction s as [|c s IH]; [reflexivity|]. simpl.
  destruct (cls c); [simpl; rewrite IH|]; reflexivity.
Qed.

Lemma take_while_all (cls : ascii -> bool) (s : str) :
  Forall (fun c => cls c = true) (take_while cls s).
Proof.
  induction s as [|c s IH]; simpl; [constructor|].
  destruct (cls c) eqn:Hc; constructor; assumption.
Qed.

Lemma drop_while_stops (cls : ascii -> bool) (s : str) :
  stops cls (drop_while cls s).
Proof.
  induction s as [|c s IH]; simpl; [exact I|].
  destruct (cls c) eqn:Hc; [exact IH | exact Hc].
Qed.

Lemma take_while_app (cls : ascii -> bool) (a t : str) :
  Forall (fun c => cls c = true) a -> stops cls t ->
  take_while cls (a ++ t) = a.
Proof.
  intros Ha Ht. induction Ha as [|c a Hc Ha IH]; simpl.
  - destruct t as [|x t]; [reflexivity|]. simpl in *. rewrite Ht. reflexivity.
  - rewrite Hc, IH. reflexivity.
Qed.

Lemma drop_while_app (cls : ascii -> bool) (a t : str) :
  Forall (fun c => cls c = true) a -> stops cls t ->
  drop_while cls (a ++ t) = t.
Proof.
  intros Ha Ht. induction Ha as [|c a Hc Ha IH]; simpl.
  - destruct t as [|x t]; [reflexivity|]. simpl in *. rewrite Ht. reflexivity.
  - rewrite Hc, IH. reflexivity.
Qed.

(** The greedy loop does not backtrack when the rest of the pattern
    rejects every text that begins in the class. *)
Lemma star_loop_skip {R : Type} (cls : ascii -> bool)
    (k : nat -> str -> option R) (pos : nat) (s : str) :
  (forall p x t, cls x = true -> k p (x :: t) = None) ->
  star_loop cls k pos s
  = k (pos + length (take_while cls s)) (drop_while cls s).
Proof.
  intros Hk. revert pos. induction s as [|c s IH]; intros pos; simpl.
  - rewrite Nat.add_0_r. reflexivity.
  - destruct (cls c) eqn:Hc.
    + rewrite IH. cbn [length Nat.add]. rewrite Nat.add_succ_r.
      destruct (k (S (pos + length (take_while cls s))) (drop_while cls s));
        [reflexivity|].
      exact (Hk pos c s Hc).
    + simpl. rewrite Nat.add_0_r. reflexivity.
Qed.

(** Nor when the rest of the pattern accepts whatever follows. *)
Lemma star_loop_greedy {R : Type} (cls : ascii -> bool)
    (k : nat -> str -> option R) (pos : nat) (s : str) :
  (forall p t, k p t <> None) ->
  star_loop cls k pos s
  = k (pos + length (take_while cls s)) (drop_while cls s).
Proof.
  intros Hk. revert pos. induction s as [|c s IH]; intros pos; simpl.
  - rewrite Nat.add_0_r. reflexivity.
  - destruct (cls c) eqn:Hc.
    + rewrite IH. cbn [length Nat.add]. rewrite Nat.add_succ_r.
      destruct (k (S (pos + length (take_while cls s))) (drop_while cls s))
        eqn:E; [reflexivity|].
      exfalso. exact (Hk _ _ E).
    + simpl. rewrite Nat.add_0_r. reflexivity.
Qed.

Lemma run_chars {R : Type} (lit : str) (p : list atom)
    (k : nat -> str -> option R) (pos : nat) (s : str) :
  run (map Chr lit ++ p) k pos s
  = if startswith lit s then run p k (pos + length lit) (skipn (length lit) s)
    else None.
Proof.
  revert pos s. induction lit as [|x lit IH]; intros pos s.
  - simpl. rewrite Nat.add_0_r. reflexivity.
  - destruct s as [|c s]; [reflexivity|].
    cbn [map app run startswith length skipn].
    rewrite (Ascii.eqb_sym x c).
    destruct (Ascii.eqb c x); [|reflexivity].
    rewrite IH. cbn [andb].
    replace (S pos + length lit) with (pos + S (length lit)) by lia.
    reflexivity.
Qed.

Lemma space_not_digit (c : ascii) : is_space c = true -> is_digit c = false.
Proof.
  destruct c as [[] [] [] [] [] [] [] []]; vm_compute; congruence.
Qed.

Lemma re_match_record_at (s : str) :
  re_match insunits_pattern s
  = match record_at s with
    | Some (ws1, ws2, ds, _) =>
        Some (13 + length ws1 + length ws2,
              13 + length ws1 + length ws2 + length ds)
    | None => None
    end.
Proof.
  unfold re_match, record_at, insunits_pattern. cbn [group1 after].
  rewrite run_chars.
  destruct (startswith (py "$INSUNITS\n") s); [|reflexivity].
  cbn [app run].
  rewrite star_loop_skip.
  2:{ intros p x t Hx. change (py "70\n") with ("7"%char :: py "0\n").
      cbn [map app run].
      destruct (Ascii.eqb_spec x "7") as [->|]; [discriminate Hx|reflexivity]. }
  rewrite (run_chars (py "70\n") [Star is_space]).
  change (length (py "$INSUNITS\n")) with 10.
  change (length (py "70\n")) with 3.
  set (s1 := skipn 10 s).
  destruct (startswith (py "70\n") (drop_while is_space s1)); [|reflexivity].
  cbn [run].
  rewrite star_loop_skip.
  2:{ intros p x t Hx. cbn [run]. rewrite (space_not_digit x Hx). reflexivity. }
  set (s3 := skipn 3 (drop_while is_space s1)).
  destruct (drop_while is_space s3) as [|x s5] eqn:Hs4; [reflexivity|].
  cbn [run take_while drop_while].
  destruct (is_digit x); [|reflexivity].
  rewrite star_loop_greedy by (intros; discriminate).
  cbn [length]. f_equal. f_equal; lia.
Qed.

Lemma record_at_intro (ws1 ws2 ds t : str) :
  Forall (fun c => is_space c = true) ws1 ->
  Forall (fun c => is_space c = true) ws2 ->
  Forall (fun c => is_digit c = true) ds -> ds <> [] ->
  stops is_digit t ->
  record_at (unit_record ws1 ws2 (ds ++ t)) = Some (ws1, ws2, ds, t).
Proof.
  intros H1 H2 Hd Hne Ht. unfold record_at, unit_record.
  rewrite startswith_app.
  change (skipn 10 (py "$INSUNITS\n" ++ ?x)) with x.
  assert (Hds : stops is_space (ds ++ t)).
  { destruct Hd as [|d ds Hd _]; [contradiction|]. simpl.
    destruct (is_space d) eqn:E; [|reflexivity].
    rewrite (space_not_digit d E) in Hd. discriminate. }
  assert (H70 : stops is_space (py "70\n" ++ ws2 ++ ds ++ t)) by reflexivity.
  rewrite (drop_while_app is_space ws1 _ H1 H70).
  rewrite (take_while_app is_space ws1 _ H1 H70).
  rewrite startswith_app.
  change (skipn 3 (py "70\n" ++ ?x)) with x.
  rewrite (drop_while_app is_space ws2 _ H2 Hds).
  rewrite (take_while_app is_space ws2 _ H2 Hds).
  rewrite (take_while_app is_digit ds _ Hd Ht).
  rewrite (drop_while_app is_digit ds _ Hd Ht).
  destruct ds; [contradiction|reflexivity].
Qed.

Lemma record_at_elim (s ws1 ws2 ds t : str) :
  record_at s = Some (ws1, ws2, ds, t) ->
  s = unit_record ws1 ws2 (ds ++ t)
  /\ Forall (fun c => is_space c = true) ws1
  /\ Forall (fun c => is_space c = true) ws2
  /\ Forall (fun c => is_digit c = true) ds /\ ds <> []
  /\ stops is_digit t.
Proof.
  unfold record_at, unit_record. intros Hs.
  destruct (startswith (py "$INSUNITS\n") s) eqn:E1; [|discriminate].
  destruct (startswith_true _ _ E1) as [s1 ->].
  change (skipn 10 (py "$INSUNITS\n" ++ s1)) with s1 in Hs.
  destruct (startswith (py "70\n") (drop_while is_space s1)) eqn:E2; [|discriminate].
  destruct (startswith_true _ _ E2) as [s3 E3].
  rewrite E3 in Hs. change (skipn 3 (py "70\n" ++ s3)) with s3 in Hs.
  destruct (take_while is_digit (drop_while is_space s3)) as [|d ds'] eqn:E4;
    [discriminate|].
  injection Hs as <- <- <- <-.
  repeat split.
  - rewrite <- E4, take_drop_while, take_drop_while, <- E3, take_drop_while.
    reflexivity.
  - apply take_while_all.
  - apply take_while_all.
  - rewrite <- E4. apply take_while_all.
  - discriminate.
  - apply drop_while_stops.
Qed.

Lemma insunits_match_nonempty (s : str) (e1 e : nat) :
  re_match insunits_pattern s = Some (e1, e) -> 13 <= e1 < e.
Proof.
  rewrite re_match_record_at.
  destruct (record_at s) as [[[[ws1 ws2] ds] t]|] eqn:Hr; [|discriminate].
  intros [= <- <-].
  destruct (record_at_elim _ _ _ _ _ Hr) as (_ & _ & _ & _ & Hne & _).
  destruct ds; [contradiction|]. simpl. lia.
Qed.

(** ** [re.sub] *)

Lemma re_sub_miss (p : pattern) (lit : str) (c : ascii) (s : str) :
  re_match p (c :: s) = None ->
  re_sub p lit (c :: s) = c :: re_sub p lit s.
Proof. intros Hm. simp re_sub. rewrite Hm. reflexivity. Qed.

Lemma re_sub_hit (p : pattern) (lit g m t : str) :
  0 < length g + length m ->
  re_match p (g ++ m ++ t) = Some (length g, length g + length m) ->
  re_sub p lit (g ++ m ++ t) = g ++ lit ++ re_sub p lit t.
Proof.
  intros Hlen Hm.
  destruct (g ++ m ++ t) as [|c s'] eqn:E.
  - apply (f_equal (@length ascii)) in E. rewrite !length_app in E.
    simpl in E. lia.
  - simp re_sub. rewrite Hm.
    destruct (length g + length m) as [|n] eqn:En; [lia|].
    cbn [re_sub_unfold_clause_2].
    change (skipn n s') with (skipn (S n) (c :: s')).
    rewrite <- E, <- En.
    rewrite firstn_app, Nat.sub_diag, firstn_all, firstn_0, app_nil_r.
    rewrite (app_assoc g m t), <- length_app, skipn_app, Nat.sub_diag, skipn_all.
    reflexivity.
Qed.

(** *** The substitution of line 166 *)

Lemma unit_sub_miss (c : ascii) (s : str) :
  record_at (c :: s) = None -> unit_sub (c :: s) = c :: unit_sub s.
Proof.
  intros Hr. apply re_sub_miss. rewrite re_match_record_at, Hr. reflexivity.
Qed.

Lemma unit_sub_hit (ws1 ws2 ds t : str) :
  spaces ws1 -> spaces ws2 -> digits ds -> ds <> [] -> stops is_digit t ->
  unit_sub (unit_record ws1 ws2 (ds ++ t))
  = unit_record ws1 ws2 (py "6" ++ unit_sub t).
Proof.
  intros H1 H2 Hd Hne Ht.
  set (g := py "$INSUNITS\n" ++ ws1 ++ py "70\n" ++ ws2).
  assert (Eg : forall v, unit_record ws1 ws2 v = g ++ v).
  { intros v. unfold unit_record, g. rewrite <- !app_assoc. reflexivity. }
  rewrite !Eg. apply re_sub_hit.
  - destruct ds; [contradiction|]. simpl. lia.
  - rewrite <- Eg, re_match_record_at, record_at_intro by assumption.
    unfold g. rewrite !length_app. simpl. f_equal. f_equal; lia.
Qed.

(** Induction along the scan of the substitution: at each position
    either a unit record is read, up to the end of its digits, or one
    character is passed on. *)
Lemma unit_scan_ind (P : str -> Prop) :
  P [] ->
  (forall ws1 ws2 ds t,
     spaces ws1 -> spaces ws2 -> digits ds -> ds <> [] -> stops is_digit t ->
     P t -> P (unit_record ws1 ws2 (ds ++ t))) ->
  (forall c s, record_at (c :: s) = None -> P s -> P (c :: s)) ->
  forall s, P s.
Proof.
  intros Hnil Hhit Hmiss s.
  remember (length s) as n eqn:Hn. revert s Hn.
  induction n as [n IH] using lt_wf_ind. intros s Hn.
  destruct s as [|c s]; [exact Hnil|].
  destruct (record_at (c :: s)) as [[[[ws1 ws2] ds] t]|] eqn:Hr.
  - destruct (record_at_elim _ _ _ _ _ Hr) as (E & H1 & H2 & Hd & Hne & Ht).
    rewrite E. apply Hhit; try assumption.
    apply (IH (length t)); [|reflexivity].
    subst n. rewrite E. unfold unit_record. rewrite !length_app. simpl. lia.
  - apply Hmiss; [exact Hr|]. apply (IH (length s)); [|reflexivity].
    subst n. simpl. lia.
Qed.

Lemma record_at_other (c : ascii) (s : str) :
  c <> "$"%char -> record_at (c :: s) = None.
Proof.
  intros Hc. unfold record_at.
  change (py "$INSUNITS\n") with ("$"%char :: py "INSUNITS\n").
  cbn [startswith]. rewrite (Ascii.eqb_sym "$" c).
  apply Ascii.eqb_neq in Hc. rewrite Hc. reflexivity.
Qed.

(** Text without a dollar sign goes through unchanged. *)
Lemma unit_sub_pass (m t : str) :
  ~ In "$"%char m -> unit_sub (m ++ t) = m ++ unit_sub t.
Proof.
  induction m as [|c m IH]; intros Hm; [reflexivity|].
  change ((c :: m) ++ t) with (c :: (m ++ t)).
  rewrite unit_sub_miss.
  - rewrite IH; [reflexivity|]. intros Hin. apply Hm. right. exact Hin.
  - apply record_at_other. intros ->. apply Hm. left. reflexivity.
Qed.

(** The result begins with the character the text begins with. *)
Lemma unit_sub_head (c : ascii) (s : str) :
  exists r, unit_sub (c :: s) = c :: r.
Proof.
  destruct (record_at (c :: s)) as [[[[ws1 ws2] ds] t]|] eqn:Hr.
  - destruct (record_at_elim _ _ _ _ _ Hr) as (E & H1 & H2 & Hd & Hne & Ht).
    rewrite E, unit_sub_hit by assumption.
    unfold unit_record in *. cbn [py app] in *.
    injection E as -> _. eexists. reflexivity.
  - rewrite unit_sub_miss by exact Hr. eexists. reflexivity.
Qed.

Lemma startswith_unit_sub (w s : str) :
  ~ In "$"%char w -> startswith w (unit_sub s) = startswith w s.
Proof.
  revert s. induction w as [|x w IH]; intros s Hw; [reflexivity|].
  destruct s as [|c s]; [reflexivity|].
  destruct (Ascii.eqb_spec c "$") as [->|Hc].
  - destruct (unit_sub_head "$" s) as [r ->]. simpl.
    destruct (Ascii.eqb_spec x "$") as [->|]; [|reflexivity].
    exfalso. apply Hw. left. reflexivity.
  - rewrite unit_sub_miss by (apply record_at_other; exact Hc).
    simpl. rewrite IH; [reflexivity|].
    intros Hin. apply Hw. right. exact Hin.
Qed.

Lemma unit_record_app (ws1 ws2 v : str) :
  unit_record ws1 ws2 v = unit_record ws1 ws2 [] ++ v.
Proof. unfold unit_record. rewrite app_nil_r, <- !app_assoc. reflexivity. Qed.

Lemma stops_unit_sub (cls : ascii -> bool) (t : str) :
  stops cls t -> stops cls (unit_sub t).
Proof.
  destruct t as [|c t]; [intros _; rewrite re_sub_equation_1; exact I|].
  destruct (unit_sub_head c t) as [r ->]. exact (fun Hc => Hc).
Qed.

(** The substitution brings no occurrence of the old version marker. *)
Lemma unit_sub_version_free (s : str) :
  contains (py "AC1015") s = false ->
  contains (py "AC1015") (unit_sub s) = false.
Proof.
  induction s as [| ws1 ws2 ds t H1 H2 Hd Hne Ht IH | c s Hr IH]
    using unit_scan_ind; intros Hs.
  - rewrite re_sub_equation_1. reflexivity.
  - rewrite unit_sub_hit by assumption.
    rewrite unit_record_app in Hs. rewrite unit_record_app.
    apply contains_app_false in Hs. destruct Hs as [Hg Hs].
    apply contains_app_false in Hs. destruct Hs as [_ Hs].
    change (py "6" ++ unit_sub t) with ("6"%char :: unit_sub t).
    rewrite contains_sep by (cbn; intuition discriminate).
    rewrite Hg, (IH Hs). reflexivity.
  - rewrite unit_sub_miss by exact Hr.
    cbn [contains] in *. apply orb_false_iff in Hs. destruct Hs as [Hc Hs].
    rewrite (IH Hs), orb_false_r.
    change (py "AC1015") with ("A"%char :: py "C1015") in *.
    cbn [startswith] in *.
    rewrite startswith_unit_sub by (cbn; intuition discriminate). exact Hc.
Qed.

(** The substitution keeps the unit directives, and adds none. *)
Lemma contains_unit_sub (s : str) :
  contains (py "$INSUNITS") (unit_sub s) = contains (py "$INSUNITS") s.
Proof.
  induction s as [| ws1 ws2 ds t H1 H2 Hd Hne Ht IH | c s Hr IH]
    using unit_scan_ind.
  - rewrite re_sub_equation_1. reflexivity.
  - rewrite unit_sub_hit by assumption.
    assert (E : forall v, contains (py "$INSUNITS") (unit_record ws1 ws2 v) = true).
    { intros v. apply contains_startswith.
      exact (startswith_app (py "$INSUNITS")
               ("010"%char :: ws1 ++ py "70\n" ++ ws2 ++ v)). }
    rewrite !E. reflexivity.
  - rewrite unit_sub_miss by exact Hr.
    cbn [contains]. rewrite IH. f_equal.
    change (py "$INSUNITS") with ("$"%char :: py "INSUNITS").
    cbn [startswith].
    rewrite startswith_unit_sub by (cbn; intuition discriminate). reflexivity.
Qed.

Lemma startswith_app_false (a b s : str) :
  startswith a s = false -> startswith (a ++ b) s = false.
Proof.
  revert s. induction a as [|x a IH]; intros s Hs; [discriminate|].
  destruct s as [|c s]; [reflexivity|]. simpl in *.
  apply andb_false_iff in Hs. destruct Hs as [-> | Hs]; [reflexivity|].
  rewrite (IH s Hs). apply andb_false_r.
Qed.

(** Without a unit directive there is nothing to substitute. *)
Lemma unit_sub_absent (s : str) :
  contains (py "$INSUNITS") s = false -> unit_sub s = s.
Proof.
  induction s as [|c s IH]; intros Hs; [rewrite re_sub_equation_1; reflexivity|].
  cbn [contains] in Hs. apply orb_false_iff in Hs. destruct Hs as [Hc Hs].
  rewrite unit_sub_miss.
  - rewrite IH by exact Hs. reflexivity.
  - unfold record_at.
    change (py "$INSUNITS\n") with (py "$INSUNITS" ++ py "\n").
    rewrite (startswith_app_false _ _ _ Hc). reflexivity.
Qed.

Lemma take_while_unit_sub (cls : ascii -> bool) (s : str) :
  cls "$"%char = false ->
  take_while cls (unit_sub s) = take_while cls s.
Proof.
  intros Hcls. induction s as [|c s IH]; [rewrite re_sub_equation_1; reflexivity|].
  destruct (cls c) eqn:Hc.
  - rewrite unit_sub_miss.
    + cbn [take_while drop_while]. rewrite Hc, IH. reflexivity.
    + apply record_at_other. intros ->. congruence.
  - destruct (unit_sub_head c s) as [r ->]. cbn [take_while]. rewrite Hc. reflexivity.
Qed.

Lemma drop_while_unit_sub (cls : ascii -> bool) (s : str) :
  cls "$"%char = false ->
  drop_while cls (unit_sub s) = unit_sub (drop_while cls s).
Proof.
  intros Hcls. induction s as [|c s IH]; [rewrite re_sub_equation_1; reflexivity|].
  destruct (cls c) eqn:Hc.
  - rewrite unit_sub_miss.
    + cbn [take_while drop_while]. rewrite Hc, IH. reflexivity.
    + apply record_at_other. intros ->. congruence.
  - destruct (unit_sub_head c s) as [r Hr]. rewrite Hr. cbn [drop_while]. rewrite Hc.
    symmetry. exact Hr.
Qed.

(** What the pattern reads at a position does not depend on the
    substitutions made further on. *)
Lemma record_at_unit_sub (c : ascii) (s : str) :
  record_at (c :: unit_sub s)
  = match record_at (c :: s) with
    | Some (ws1, ws2, ds, t) => Some (ws1, ws2, ds, unit_sub t)
    | None => None
    end.
Proof.
  destruct (Ascii.eqb_spec c "$") as [->|Hc].
  2:{ rewrite !record_at_other by exact Hc. reflexivity. }
  unfold record_at.
  change (py "$INSUNITS\n") with ("$"%char :: py "INSUNITS\n").
  cbn [startswith]. rewrite Ascii.eqb_refl. cbn [andb].
  rewrite startswith_unit_sub by (cbn; intuition discriminate).
  destruct (startswith (py "INSUNITS\n") s) eqn:E1; [|reflexivity].
  destruct (startswith_true _ _ E1) as [s1 ->].
  rewrite unit_sub_pass by (cbn; intuition discriminate).
  change (skipn 10 ("$"%char :: py "INSUNITS\n" ++ ?x)) with x.
  rewrite (drop_while_unit_sub is_space) by reflexivity.
  rewrite (take_while_unit_sub is_space) by reflexivity.
  rewrite startswith_unit_sub by (cbn; intuition discriminate).
  destruct (startswith (py "70\n") (drop_while is_space s1)) eqn:E2;
    [|reflexivity].
  destruct (startswith_true _ _ E2) as [s3 ->].
  rewrite unit_sub_pass by (cbn; intuition discriminate).
  change (skipn 3 (py "70\n" ++ ?x)) with x.
  rewrite (drop_while_unit_sub is_space) by reflexivity.
  rewrite (take_while_unit_sub is_space) by reflexivity.
  rewrite (drop_while_unit_sub is_digit) by reflexivity.
  rewrite (take_while_unit_sub is_digit) by reflexivity.
  destruct (take_while is_digit (drop_while is_space s3)); reflexivity.
Qed.

(** The substitution changes nothing in its own result. *)
Lemma unit_sub_idempotent (s : str) : unit_sub (unit_sub s) = unit_sub s.
Proof.
  induction s as [| ws1 ws2 ds t H1 H2 Hd Hne Ht IH | c s Hr IH]
    using unit_scan_ind.
  - rewrite re_sub_equation_1. reflexivity.
  - rewrite unit_sub_hit by assumption.
    rewrite unit_sub_hit; try assumption.
    + rewrite IH. reflexivity.
    + repeat constructor.
    + discriminate.
    + apply stops_unit_sub. exact Ht.
  - rewrite unit_sub_miss by exact Hr.
    rewrite unit_sub_miss.
    + rewrite IH. reflexivity.
    + rewrite record_at_unit_sub, Hr. reflexivity.
Qed.

Lemma firstn_exact {A : Type} (n : nat) (x y : list A) :
  n = length x -> firstn n (x ++ y) = x.
Proof.
  intros ->. rewrite firstn_app, Nat.sub_diag, firstn_all, firstn_0.
  apply app_nil_r.
Qed.

Lemma skipn_exact {A : Type} (n : nat) (x y : list A) :
  n = length x -> skipn n (x ++ y) = y.
Proof.
  intros ->. rewrite skipn_app, Nat.sub_diag, skipn_all. reflexivity.
Qed.

(** ** [str.find] *)

Lemma find_from_absent (w s : str) (i : Z) :
  contains w s = false -> find_from w s i = (-1)%Z.
Proof.
  revert i. induction s as [|c s IH]; intros i Hs; cbn [contains find_from] in *;
    apply orb_false_iff in Hs; destruct Hs as [Hc Hs]; rewrite Hc;
    [reflexivity|]. apply IH. exact Hs.
Qed.

Lemma find_from_here (w s : str) (i : Z) :
  startswith w s = true -> find_from w s i = i.
Proof. intros Hs. destruct s; cbn [find_from]; rewrite Hs; reflexivity. Qed.

(** The scan answers -1 or an index from [i] on. *)
Lemma find_from_range (w s : str) (i : Z) :
  find_from w s i = (-1)%Z
  \/ (i <= find_from w s i <= i + Z.of_nat (length s))%Z.
Proof.
  revert i. induction s as [|c s IH]; intros i; cbn [find_from].
  - destruct (startswith w []); [right|left; reflexivity]. simpl. lia.
  - destruct (startswith w (c :: s)); [right; simpl length; lia|].
    destruct (IH (i + 1)%Z) as [E|E]; [left; exact E|right].
    simpl length. lia.
Qed.

(** It stops at a known occurrence at the latest. *)
Lemma find_from_le (w a t : str) (i : Z) :
  (i <= find_from w (a ++ w ++ t) i <= i + Z.of_nat (length a))%Z.
Proof.
  revert i. induction a as [|c a IH]; intros i.
  - cbn [app]. rewrite find_from_here by apply startswith_app. simpl. lia.
  - change ((c :: a) ++ w ++ t) with (c :: (a ++ w ++ t)). cbn [find_from].
    destruct (startswith w (c :: a ++ w ++ t)); [simpl length; lia|].
    specialize (IH (i + 1)%Z). simpl length. lia.
Qed.

(** Where it stops, the word occurs. *)
Lemma find_from_split (w s : str) (i j : Z) :
  find_from w s i = j -> (i <= j)%Z -> (0 <= i)%Z ->
  exists a t, s = a ++ w ++ t /\ j = (i + Z.of_nat (length a))%Z.
Proof.
  revert i. induction s as [|c s IH]; intros i Hj Hij Hi; cbn [find_from] in Hj.
  - destruct (startswith w []) eqn:E; [|lia].
    destruct (startswith_true _ _ E) as [t Ht].
    exists [], t. split; [exact Ht|]. simpl. lia.
  - destruct (startswith w (c :: s)) eqn:E.
    + destruct (startswith_true _ _ E) as [t Ht].
      exists [], t. split; [exact Ht|]. simpl. lia.
    + destruct (find_from_range w s (i + 1)) as [R|R]; [lia|].
      destruct (IH (i + 1)%Z Hj) as (a & t & -> & Ha); [lia|lia|].
      exists (c :: a), t. split; [reflexivity|]. simpl length. lia.
Qed.






(** *** What the version rewrite leaves in place *)

Lemma replace_pointwise (o : ascii) (old' new s : str) :
  Forall2 same_but_digits (o :: old') new ->
  Forall2 same_but_digits s (replace (o :: old') new s).
Proof.
  intros Hon.
  induction s as [| t IH | c s Hc IH] using (replace_scan_ind o old').
  - rewrite replace_equation_2. constructor.
  - rewrite replace_hit. apply Forall2_app; assumption.
  - rewrite replace_miss by exact Hc. constructor; [left; reflexivity|exact IH].
Qed.

Lemma version_rewrite_pointwise (s : str) :
  Forall2 same_but_digits s (replace (py "AC1015") (py "AC1021") s).
Proof.
  apply (replace_pointwise "A" (py "C1015") (py "AC1021")).
  repeat constructor; solve [left; reflexivity | right; split; reflexivity].
Qed.

Lemma startswith_pointwise (w s t : str) :
  digit_free w -> Forall2 same_but_digits s t ->
  startswith w s = startswith w t.
Proof.
  intros Hw. revert s t. induction Hw as [|x w Hx Hw IH]; intros s t Hst;
    [reflexivity|].
  destruct Hst as [|a b s t Hab Hst]; [reflexivity|]. simpl.
  rewrite (IH _ _ Hst). f_equal.
  destruct Hab as [->|[Ha Hb]]; [reflexivity|].
  destruct (Ascii.eqb_spec x a) as [->|_]; [congruence|].
  destruct (Ascii.eqb_spec x b) as [->|_]; [congruence|]. reflexivity.
Qed.

Lemma contains_pointwise (w s t : str) :
  digit_free w -> Forall2 same_but_digits s t ->
  contains w s = contains w t.
Proof.
  intros Hw Hst. induction Hst as [|a b s t Hab Hst IH].
  - reflexivity.
  - cbn [contains]. rewrite IH. f_equal.
    apply startswith_pointwise; [exact Hw|]. constructor; assumption.
Qed.

Lemma find_from_pointwise (w s t : str) (i : Z) :
  digit_free w -> Forall2 same_but_digits s t ->
  find_from w s i = find_from w t i.
Proof.
  intros Hw Hst. revert i. induction Hst as [|a b s t Hab Hst IH]; intros i.
  - reflexivity.
  - cbn [find_from]. rewrite IH.
    rewrite (startswith_pointwise w (a :: s) (b :: t) Hw); [reflexivity|].
    constructor; assumption.
Qed.

Lemma Forall2_skipn {A : Type} (R : A -> A -> Prop) (n : nat) (s t : list A) :
  Forall2 R s t -> Forall2 R (skipn n s) (skipn n t).
Proof.
  revert s t. induction n as [|n IH]; intros s t Hst; [exact Hst|].
  destruct Hst; [constructor|]. simpl. apply IH. assumption.
Qed.

Lemma find_pointwise (w s t : str) (start : Z) :
  digit_free w -> Forall2 same_but_digits s t ->
  find w s start = find w t start.
Proof.
  intros Hw Hst. unfold find. rewrite (Forall2_length Hst).
  destruct (_ <? _)%Z; [reflexivity|].
  apply find_from_pointwise; [exact Hw|]. apply Forall2_skipn. exact Hst.
Qed.

(** ** The patch *)


Lemma replace_pass (o : ascii) (old' new m t : str) :
  ~ In o m ->
  replace (o :: old') new (m ++ t) = m ++ replace (o :: old') new t.
Proof.
  induction m as [|c m IH]; intros Hm; [reflexivity|].
  change ((c :: m) ++ t) with (c :: (m ++ t)).
  rewrite replace_miss.
  - rewrite IH; [reflexivity|]. intros Hin. apply Hm. right. exact Hin.
  - cbn [startswith]. destruct (Ascii.eqb_spec o c) as [->|]; [|reflexivity].
    exfalso. apply Hm. left. reflexivity.
Qed.

Lemma version_rewrite_head (c : ascii) (s : str) :
  exists r, version_rewrite (c :: s) = c :: r.
Proof.
  destruct (startswith (py "AC1015") (c :: s)) eqn:E.
  - destruct (startswith_true _ _ E) as [t Ht]. rewrite Ht.
    injection Ht as -> _.
    rewrite (replace_hit "A" (py "C1015")). eexists. reflexivity.
  - rewrite (replace_miss "A" (py "C1015")) by exact E. eexists. reflexivity.
Qed.


Lemma length_version_rewrite (s : str) :
  length (version_rewrite s) = length s.
Proof. symmetry. exact (Forall2_length (version_rewrite_pointwise s)). Qed.

Lemma contains_version_rewrite (w s : str) :
  digit_free w -> contains w (version_rewrite s) = contains w s.
Proof.
  intros Hw. symmetry. apply contains_pointwise; [exact Hw|].
  apply version_rewrite_pointwise.
Qed.

(** No unit record begins in a text without a unit directive that a
    dollar sign follows. *)
Lemma unit_sub_free_prefix (a u : str) :
  contains (py "$INSUNITS") a = false ->
  unit_sub (a ++ "$"%char :: u) = a ++ unit_sub ("$"%char :: u).
Proof.
  induction a as [|c a IH]; intros Ha; [reflexivity|].
  cbn [contains] in Ha. apply orb_false_iff in Ha. destruct Ha as [Hc Ha].
  change ((c :: a) ++ "$"%char :: u) with (c :: (a ++ "$"%char :: u)).
  rewrite unit_sub_miss.
  - rewrite IH by exact Ha. reflexivity.
  - unfold record_at.
    change (c :: a ++ "$"%char :: u) with ((c :: a) ++ "$"%char :: u).
    change (py "$INSUNITS\n") with ("$"%char :: py "INSUNITS\n").
    rewrite startswith_sep_head by (cbn; intuition discriminate).
    change ("$"%char :: py "INSUNITS\n") with (py "$INSUNITS" ++ py "\n").
    rewrite (startswith_app_false _ _ _ Hc). reflexivity.
Qed.

(** The occurrences of a one-line word around the inserted record. *)
Lemma contains_insert (w x y : str) :
  ~ In "010"%char w ->
  contains w (x ++ units_def ++ y)
  = contains w x || contains w (py "$INSUNITS") || contains w (py " 70")
    || contains w (py "     6") || contains w y.
Proof.
  intros Hw.
  change (units_def ++ y)
    with ("010"%char :: py "$INSUNITS" ++ "010"%char :: py " 70"
            ++ "010"%char :: py "     6" ++ "010"%char :: y).
  rewrite !(contains_sep w _ _ "010"%char Hw). rewrite !orb_assoc. reflexivity.
Qed.


(** The three ways of the patch, by what the rewritten text holds. *)
Lemma patch_substitute (content : str) :
  contains (py "$INSUNITS") (version_rewrite content) = true ->
  patch content = unit_sub (version_rewrite content).
Proof. intros Hc. unfold patch. rewrite Hc. reflexivity. Qed.

Lemma patch_insert (content : str) (header_end : Z) :
  contains (py "$INSUNITS") (version_rewrite content) = false ->
  find (py "ENDSEC") (version_rewrite content)
    (find (py "HEADER") (version_rewrite content) 0) = header_end ->
  (-1 < header_end)%Z ->
  patch content
  = slice_to (version_rewrite content) header_end ++ units_def
    ++ slice_from (version_rewrite content) header_end.
Proof.
  intros Hc Hf Hh. unfold patch. rewrite Hc. cbv zeta. rewrite Hf.
  destruct (Z.ltb_spec (-1) header_end); [reflexivity|lia].
Qed.

Lemma patch_skip (content : str) :
  contains (py "$INSUNITS") (version_rewrite content) = false ->
  (find (py "ENDSEC") (version_rewrite content)
     (find (py "HEADER") (version_rewrite content) 0) <= -1)%Z ->
  patch content = version_rewrite content.
Proof.
  intros Hc Hf. unfold patch. rewrite Hc. cbv zeta.
  destruct (Z.ltb_spec (-1)
    (find (py "ENDSEC") (version_rewrite content)
       (find (py "HEADER") (version_rewrite content) 0))); [lia|reflexivity].
Qed.

Lemma patch_cases (content : str) :
  let r := version_rewrite content in
  (contains (py "$INSUNITS") r = true /\ patch content = unit_sub r)
  \/ (contains (py "$INSUNITS") r = false
      /\ exists x y, r = x ++ y /\ patch content = x ++ units_def ++ y)
  \/ (contains (py "$INSUNITS") r = false /\ patch content = r).
Proof.
  cbv zeta. set (r := version_rewrite content).
  destruct (contains (py "$INSUNITS") r) eqn:Hc.
  - left. split; [reflexivity|]. apply patch_substitute. exact Hc.
  - right.
    destruct (Z.ltb_spec (-1)
      (find (py "ENDSEC") r (find (py "HEADER") r 0))) as [L|L]; subst r.
    + left. split; [reflexivity|].
      eexists _, _. split; [|exact (patch_insert content _ Hc eq_refl L)].
      symmetry. apply firstn_skipn.
    + right. split; [reflexivity|]. apply patch_skip; [exact Hc|lia].
Qed.

(** The old version marker is nowhere in the result. *)
Lemma patch_version_free (content : str) :
  contains (py "AC1015") (patch content) = false.
Proof.
  pose proof (version_rewrite_complete content) as Hr.
  destruct (patch_cases content) as [[_ ->]|[(_ & x & y & E & ->)|[_ ->]]].
  - apply unit_sub_version_free. exact Hr.
  - rewrite E in Hr. apply contains_app_false in Hr. destruct Hr as [Hx Hy].
    rewrite contains_insert by (cbn; intuition discriminate).
    rewrite Hx, Hy. reflexivity.
  - exact Hr.
Qed.

Lemma patch_idempotent (content : str) : patch (patch content) = patch content.
Proof.
  assert (Hv : version_rewrite (patch content) = patch content).
  { apply (replace_absent "A" (py "C1015")). apply patch_version_free. }
  destruct (patch_cases content) as [[Hc E]|[(Hc & x & y & Er & E)|[Hc E]]].
  - rewrite patch_substitute; rewrite Hv, E.
    + apply unit_sub_idempotent.
    + rewrite contains_unit_sub. exact Hc.
  - rewrite Er in Hc. apply contains_app_false in Hc. destruct Hc as [Hx Hy].
    rewrite patch_substitute; rewrite Hv, E.
    + change (units_def ++ y)
        with ("010"%char :: "$"%char :: py "INSUNITS\n 70\n     6\n" ++ y).
      change (x ++ "010"%char :: "$"%char :: ?u)
        with (x ++ [ "010"%char ] ++ "$"%char :: u).
      rewrite app_assoc, unit_sub_free_prefix.
      * f_equal.
        change ("$"%char :: py "INSUNITS\n 70\n     6\n" ++ y)
          with (unit_record (py " ") (py "     ") (py "6" ++ "010"%char :: y)).
        rewrite unit_sub_hit;
          [ | repeat constructor | repeat constructor | repeat constructor
            | discriminate | reflexivity ].
        rewrite unit_sub_absent; [reflexivity|].
        cbn [contains]. rewrite Hy. reflexivity.
      * pose proof (contains_sep (py "$INSUNITS") x [] "010"%char) as S.
        rewrite S by (cbn; intuition discriminate). rewrite Hx. reflexivity.
    + rewrite contains_insert by (cbn; intuition discriminate).
      rewrite Hx. reflexivity.
  - rewrite E in *. unfold patch at 1. rewrite Hv, Hc. cbv zeta.
    unfold patch in E. rewrite Hc in E. cbv zeta in E. exact E.
Qed.

(** *** The insertion point *)

Lemma find_zero (w s : str) : find w s 0 = find_from w s 0.
Proof.
  unfold find. cbn [Z.ltb Z.compare].
  destruct (Z.ltb_spec (Z.of_nat (length s)) 0) as [L|_]; [lia|reflexivity].
Qed.

(** A found index splits the text at an occurrence. *)
Lemma find_split_at (w s : str) (start j : Z) :
  find w s start = j -> (-1 < j)%Z ->
  exists x y, s = x ++ w ++ y /\ j = Z.of_nat (length x)
              /\ (0 <= start -> start <= j)%Z.
Proof.
  unfold find. set (n := Z.of_nat (length s)).
  set (k := if (start <? 0)%Z then Z.max 0 (start + n) else start).
  intros Hj Hpos.
  assert (Hk : (0 <= k)%Z).
  { unfold k. destruct (Z.ltb_spec start 0); lia. }
  destruct (Z.ltb_spec n k) as [L|L]; [lia|].
  destruct (find_from_range w (skipn (Z.to_nat k) s) k) as [R|R]; [lia|].
  destruct (find_from_split w (skipn (Z.to_nat k) s) k j Hj) as (a & t & E & Ej);
    [lia|exact Hk|].
  exists (firstn (Z.to_nat k) s ++ a), t. repeat split.
  - rewrite <- app_assoc, <- E. symmetry. apply firstn_skipn.
  - rewrite length_app, length_firstn. unfold n in L. lia.
  - intros Hs. unfold k in R. destruct (Z.ltb_spec start 0); lia.
Qed.

Lemma header_overlap (t a c : str) :
  py "HEADER" ++ t = a ++ py "ENDSEC" ++ c ->
  exists b, a = py "HEADER" ++ b /\ t = b ++ py "ENDSEC" ++ c.
Proof.
  intros E.
  destruct a as [|x1 [|x2 [|x3 [|x4 [|x5 [|x6 b]]]]]]; cbn [py app] in E;
    try discriminate E.
  injection E as <- <- <- <- <- <- E. exists b. split; [reflexivity|exact E].
Qed.

(** The test of line 170 holds exactly for the texts with a [HEADER]
    marker and an [ENDSEC] marker after it. *)
Lemma header_end_found (s : str) :
  (-1 < find (py "ENDSEC") s (find (py "HEADER") s 0))%Z <-> has_header_pair s.
Proof.
  split.
  - intros Hf. rewrite find_zero in Hf.
    destruct (find_from_range (py "HEADER") s 0) as [R|R].
    + exfalso. rewrite R in Hf. unfold find in Hf.
      cbn [Z.ltb Z.compare] in Hf.
      set (n := Z.of_nat (length s)) in *.
      destruct (Z.ltb_spec n (Z.max 0 (-1 + n))) as [L|L]; [lia|].
      rewrite find_from_absent in Hf; [lia|].
      apply contains_short. rewrite length_skipn. cbn [py length].
      unfold n in *. lia.
    + destruct (find_from_split (py "HEADER") s 0 _ eq_refl) as (a & t & E & Ea);
        [lia|lia|].
      destruct (find_split_at _ _ _ _ eq_refl Hf) as (x & y & Ex & Ey & Hle).
      assert (Hx : length a <= length x) by lia. clear Ey Hle Hf.
      rewrite E in Ex.
      assert (Ha : x = a ++ skipn (length a) x).
      { rewrite <- (firstn_skipn (length a) x) at 1. f_equal.
        apply (f_equal (firstn (length a))) in Ex.
        rewrite firstn_app, Nat.sub_diag, firstn_all, firstn_0, app_nil_r in Ex.
        rewrite firstn_app in Ex.
        replace (length a - length x) with 0 in Ex by lia.
        rewrite firstn_0, app_nil_r in Ex. symmetry. exact Ex. }
      rewrite Ha, <- app_assoc in Ex. apply app_inv_head in Ex.
      destruct (header_overlap _ _ _ Ex) as (b & _ & Et).
      exists a, b, y. rewrite E, Et. reflexivity.
  - intros (a & b & c & ->). rewrite find_zero.
    pose proof (find_from_le (py "HEADER") a (b ++ py "ENDSEC" ++ c) 0) as Hh.
    set (h := find_from (py "HEADER") (a ++ py "HEADER" ++ b ++ py "ENDSEC" ++ c) 0)
      in *.
    unfold find. destruct (Z.ltb_spec h 0) as [L|_]; [lia|].
    destruct (Z.ltb_spec
      (Z.of_nat (length (a ++ py "HEADER" ++ b ++ py "ENDSEC" ++ c))) h) as [L|_].
    { rewrite length_app in L. lia. }
    rewrite skipn_app.
    replace (Z.to_nat h - length a) with 0 by lia. cbn [skipn].
    rewrite (app_assoc (py "HEADER") b), app_assoc.
    pose proof (find_from_le (py "ENDSEC")
                  (skipn (Z.to_nat h) a ++ py "HEADER" ++ b) c h) as He.
    lia.
Qed.

Lemma header_pair_version_rewrite (content : str) :
  has_header_pair (version_rewrite content) <-> has_header_pair content.
Proof.
  rewrite <- !header_end_found.
  pose proof (version_rewrite_pointwise content) as Hp.
  assert (HH : digit_free (py "HEADER")) by (repeat constructor).
  assert (HE : digit_free (py "ENDSEC")) by (repeat constructor).
  rewrite <- (find_pointwise (py "HEADER") content _ 0 HH Hp).
  rewrite <- (find_pointwise (py "ENDSEC") content _ _ HE Hp).
  reflexivity.
Qed.


Lemma class_not_in (cls : ascii -> bool) (x : ascii) (l : str) :
  Forall (fun c => cls c = true) l -> cls x = false -> ~ In x l.
Proof.
  intros Hl Hx Hin. rewrite Forall_forall in Hl.
  specialize (Hl x Hin). congruence.
Qed.




(** With a header pair and no unit directive, the record goes in front
    of an [ENDSEC] marker of the rewritten text. *)
Lemma patch_insert_at (content : str) :
  contains (py "$INSUNITS") (version_rewrite content) = false ->
  has_header_pair content ->
  exists x y, version_rewrite content = x ++ py "ENDSEC" ++ y
              /\ patch content = x ++ units_def ++ py "ENDSEC" ++ y.
Proof.
  intros Hc Hp. apply header_pair_version_rewrite in Hp.
  apply header_end_found in Hp.
  destruct (find_split_at _ _ _ _ eq_refl Hp) as (x & y & E & Ej & _).
  exists x, y. split; [exact E|].
  rewrite (patch_insert content _ Hc eq_refl Hp), Ej.
  unfold slice_to, slice_from. rewrite Nat2Z.id.
  rewrite E at 1 2. rewrite firstn_exact, skipn_exact by reflexivity.
  reflexivity.
Qed.

Lemma postprocess_some (w : World) (l : list event) (content : str) :
  postprocess w {| log := l; disk := Some content |}
  = (Next tt,
     if writable w
     then {| log := l ++ [Print msg_version_changed; Print msg_units_set];
             disk := Some (patch content) |}
     else {| log := l ++ [Print warn_patch];
             disk := match failed_write_leaves w with
                     | Some torn => Some torn
                     | None => Some content
                     end |}).
Proof.
  unfold postprocess, bind, read_file, write_file, print, emit. cbn.
  destruct (writable w); cbn; [rewrite <- app_assoc; reflexivity|].
  destruct (failed_write_leaves w); reflexivity.
Qed.

(** ** Properties of the header patch *)


(** C2, as stated, fails: the document [AC1015] has no header pair, and
    its patch signals no failure. *)
Lemma no_failure_without_header :
  ~ malformed_header_rule (obliging []) (py "AC1015").
Proof.
  unfold malformed_header_rule, failure_signalled, patched_file.
  rewrite postprocess_some. cbn [snd obliging writable disk log app].
  intros [_ Hf].
  assert (Hn : ~ has_header_pair (py "AC1015")).
  { rewrite <- header_end_found. vm_compute. discriminate. }
  destruct (Hf Hn) as [E|[E|[]]]; discriminate E.
Qed.

(** C2, amended: the patch never fails on a malformed header.  With or
    without a header pair, a file that can be written gets
    [patch content] and no failure is signalled; the insertion test of
    line 170 holds exactly for the documents with a header pair; and a
    document with no header pair and no unit directive comes out as its
    version rewrite, nothing being inserted. *)
Theorem patch_never_fails (w : World) (l : list event) (content : str) :
  writable w = true ->
  postprocess w {| log := l; disk := Some content |}
  = (Next tt,
     {| log := l ++ [Print msg_version_changed; Print msg_units_set];
        disk := Some (patch content) |})
  /\ ~ failure_signalled (patched_file w content)
  /\ (has_header_pair content <->
      (-1 < find (py "ENDSEC") (version_rewrite content)
              (find (py "HEADER") (version_rewrite content) 0))%Z)
  /\ (contains (py "$INSUNITS") content = false ->
      ~ has_header_pair content ->
      patch content = version_rewrite content).
Proof.
  intros Hw. repeat split.
  - rewrite postprocess_some, Hw. reflexivity.
  - unfold failure_signalled, patched_file.
    rewrite postprocess_some, Hw. cbn [snd log app].
    intros [E|[E|[]]]; discriminate E.
  - intros Hp. apply header_end_found, header_pair_version_rewrite. exact Hp.
  - intros Hf. apply header_pair_version_rewrite, header_end_found. exact Hf.
  - intros Hc Hp. apply patch_skip.
    + rewrite contains_version_rewrite by (repeat constructor). exact Hc.
    + destruct (Z.ltb_spec (-1)
        (find (py "ENDSEC") (version_rewrite content)
           (find (py "HEADER") (version_rewrite content) 0))) as [L|L]; [|lia].
      exfalso. apply Hp.
      apply header_pair_version_rewrite, header_end_found. exact L.
Qed.

Lemma patch_never_fails_witness :
  postprocess (obliging []) {| log := []; disk := Some (py "AC1015") |}
  = (Next tt,
     {| log := [] ++ [Print msg_version_changed; Print msg_units_set];
        disk := Some (patch (py "AC1015")) |})
  /\ ~ failure_signalled (patched_file (obliging []) (py "AC1015"))
  /\ (has_header_pair (py "AC1015") <->
      (-1 < find (py "ENDSEC") (version_rewrite (py "AC1015"))
              (find (py "HEADER") (version_rewrite (py "AC1015")) 0))%Z)
  /\ (contains (py "$INSUNITS") (py "AC1015") = false ->
      ~ has_header_pair (py "AC1015") ->
      patch (py "AC1015") = version_rewrite (py "AC1015")).
Proof.
  apply (patch_never_fails (obliging []) [] (py "AC1015")). reflexivity.
Defined.

(** C3: the rewrite of line 158 replaces every occurrence of [AC1015],
    wherever it is in the document, by [AC1021]: the document is cut at
    its occurrences of [AC1015] into pieces that hold none, and it is
    rewritten into the same pieces joined by [AC1021], whatever the
    pieces; no [AC1015] is left in what the patch returns; and the
    document of scenario A comes out with [AC1021] in place of
    [AC1015]. *)
Theorem version_rewrite_everywhere (content : str) :
  (exists segs,
      content = join (py "AC1015") segs
      /\ Forall (fun seg => contains (py "AC1015") seg = false) segs
      /\ version_rewrite content = join (py "AC1021") segs)
  /\ (forall segs,
        Forall (fun seg => contains (py "AC1015") seg = false) segs ->
        version_rewrite (join (py "AC1015") segs) = join (py "AC1021") segs)
  /\ contains (py "AC1015") (patch content) = false
  /\ patch scenario_A
     = py "HEADER\n$INSUNITS\n 70\n     6\nENDSEC\n  1\nAC1021\n".
Proof.
  assert (Hjoin : forall segs,
            Forall (fun seg => contains (py "AC1015") seg = false) segs ->
            version_rewrite (join (py "AC1015") segs) = join (py "AC1021") segs).
  { intros segs Hsegs.
    apply (replace_join "A" (py "C1015")); [|exact Hsegs].
    cbn. intuition discriminate. }
  split; [|split; [exact Hjoin|split]].
  - destruct (split_at_occurrences "A" (py "C1015") content)
      as (segs & _ & E & Hfree).
    exists segs. split; [exact E|]. split; [exact Hfree|].
    rewrite E at 1. apply Hjoin. exact Hfree.
  - apply patch_version_free.
  - vm_compute. reflexivity.
Qed.






(** C6: patching what the patch returned changes nothing, and neither
    does the version rewrite on its own result, nor the substitution of
    the unit value on its own. *)
Theorem patch_twice (content : str) :
  patch (patch content) = patch content
  /\ version_rewrite (version_rewrite content) = version_rewrite content
  /\ unit_sub (unit_sub content) = unit_sub content.
Proof.
  split; [apply patch_idempotent|]. split.
  - apply (replace_absent "A" (py "C1015")). apply version_rewrite_complete.
  - apply unit_sub_idempotent.
Qed.

(** ** The extent fold *)

#[export] Instance box_laws : QgsRectangleLaws box.
Proof.
  split.
  - reflexivity.
  - intros [r|]; [discriminate|reflexivity].
  - intros [[[[x0 y0] x1] y1]|]; reflexivity.
  - intros [[[[x0 y0] x1] y1]|] [[[[u0 v0] u1] v1]|]; cbn; congruence.
  - intros [[[[x0 y0] x1] y1]|] [[[[u0 v0] u1] v1]|]; cbn; try congruence.
    intros _ _. f_equal. f_equal; [f_equal; [f_equal|]|]; lia.
  - intros [[[[x0 y0] x1] y1]|] [[[[u0 v0] u1] v1]|] [[[[p0 q0] p1] q1]|];
      cbn; try congruence.
    intros _ _ _. f_equal. f_equal; [f_equal; [f_equal|]|]; lia.
Qed.

Section ExtentFold.

Context {Rectangle : Type} `{QgsRectangleLaws Rectangle}.

Lemma combine_step_empty_l (a : Rectangle) : combine_step QgsRectangle a = a.
Proof. unfold combine_step. rewrite default_isEmpty. reflexivity. Qed.

Lemma combine_step_empty_r (a : Rectangle) : combine_step a QgsRectangle = a.
Proof.
  unfold combine_step. destruct (isEmpty a) eqn:Ha.
  - symmetry. apply empty_unique. exact Ha.
  - apply combine_empty_r.
Qed.

Lemma combine_step_comm (a b : Rectangle) :
  combine_step a b = combine_step b a.
Proof.
  unfold combine_step.
  destruct (isEmpty a) eqn:Ha, (isEmpty b) eqn:Hb.
  - rewrite (empty_unique a Ha), (empty_unique b Hb). reflexivity.
  - rewrite (empty_unique a Ha). symmetry. apply combine_empty_r.
  - rewrite (empty_unique b Hb). apply combine_empty_r.
  - apply combine_comm; assumption.
Qed.

Lemma combine_step_nonempty (a b : Rectangle) :
  isEmpty a = false -> isEmpty b = false -> isEmpty (combine_step a b) = false.
Proof.
  intros Ha Hb. unfold combine_step. rewrite Ha.
  apply combine_nonempty; assumption.
Qed.

Lemma combine_step_assoc (a b c : Rectangle) :
  combine_step (combine_step a b) c = combine_step a (combine_step b c).
Proof.
  destruct (isEmpty a) eqn:Ha.
  { rewrite (empty_unique a Ha), !combine_step_empty_l. reflexivity. }
  destruct (isEmpty b) eqn:Hb.
  { rewrite (empty_unique b Hb), combine_step_empty_l, combine_step_empty_r.
    reflexivity. }
  destruct (isEmpty c) eqn:Hc.
  { rewrite (empty_unique c Hc), !combine_step_empty_r. reflexivity. }
  pose proof (combine_step_nonempty a b Ha Hb) as Hab.
  pose proof (combine_step_nonempty b c Hb Hc) as Hbc.
  unfold combine_step in *. rewrite Ha, Hb in *. rewrite Hab.
  apply combine_assoc; assumption.
Qed.

Lemma combine_fold (layers : list (Layer Rectangle)) (acc : Rectangle) :
  fold_left (fun ext layer => combine_step ext (extent layer)) layers acc
  = combine_step acc (combine layers).
Proof.
  unfold combine. revert acc.
  induction layers as [|l layers IH] using rev_ind; intros acc.
  - cbn. symmetry. apply combine_step_empty_r.
  - rewrite !fold_left_app. cbn. rewrite IH, combine_step_assoc. reflexivity.
Qed.

Lemma combine_app (l1 l2 : list (Layer Rectangle)) :
  combine (l1 ++ l2) = combine_step (combine l1) (combine l2).
Proof.
  unfold combine at 1. rewrite fold_left_app. apply combine_fold.
Qed.

Lemma combine_cons (l : Layer Rectangle) (layers : list (Layer Rectangle)) :
  combine (l :: layers) = combine_step (extent l) (combine layers).
Proof.
  change (l :: layers) with ([l] ++ layers). rewrite combine_app.
  unfold combine at 1. cbn. rewrite combine_step_empty_l. reflexivity.
Qed.

Lemma combine_permutation (l1 l2 : list (Layer Rectangle)) :
  Permutation l1 l2 -> combine l1 = combine l2.
Proof.
  induction 1 as [| x l l' _ IH | x y l | l l' l'' _ IH1 _ IH2].
  - reflexivity.
  - rewrite !combine_cons, IH. reflexivity.
  - rewrite !combine_cons, <- !combine_step_assoc.
    rewrite (combine_step_comm (extent y)). reflexivity.
  - rewrite IH1. exact IH2.
Qed.

End ExtentFold.

(** C7: the turn of the extent loop is commutative and associative on
    rectangles, with the empty rectangle as its identity, so that the
    fold does not depend on the order of the layers and splits over a
    concatenation; no layer gives the empty rectangle and one layer
    gives its extent.  The library type [QgsRectangle] is taken with the
    laws of [QgsRectangleLaws]. *)
Theorem combine_laws (Rectangle : Type) (api : QgsRectangleApi Rectangle)
    (laws : QgsRectangleLaws Rectangle)
    (a b c : Rectangle) (L A B : Layer Rectangle)
    (ls ls' : list (Layer Rectangle)) :
  combine_step a b = combine_step b a
  /\ combine_step (combine_step a b) c = combine_step a (combine_step b c)
  /\ combine_step QgsRectangle a = a
  /\ combine_step a QgsRectangle = a
  /\ combine [] = QgsRectangle
  /\ combine [L] = extent L
  /\ combine [A; B] = combine_step (extent A) (extent B)
  /\ combine [A; B] = combine [B; A]
  /\ (Permutation ls ls' -> combine ls = combine ls')
  /\ combine (ls ++ ls') = combine_step (combine ls) (combine ls').
Proof.
  repeat split.
  - apply combine_step_comm.
  - apply combine_step_assoc.
  - apply combine_step_empty_l.
  - apply combine_step_empty_r.
  - unfold combine. cbn. apply combine_step_empty_l.
  - unfold combine. cbn. rewrite combine_step_empty_l. reflexivity.
  - apply combine_permutation. constructor.
  - apply combine_permutation.
  - apply combine_app.
Qed.

Lemma combine_laws_witness :
  combine_step (extent roads) (extent parcels)
  = combine_step (extent parcels) (extent roads)
  /\ combine_step (combine_step (extent roads) (extent parcels)) (extent ortofoto)
     = combine_step (extent roads) (combine_step (extent parcels) (extent ortofoto))
  /\ combine_step QgsRectangle (extent roads) = extent roads
  /\ combine_step (extent roads) QgsRectangle = extent roads
  /\ combine (@nil (Layer box)) = QgsRectangle
  /\ combine [ortofoto] = extent ortofoto
  /\ combine [roads; parcels] = combine_step (extent roads) (extent parcels)
  /\ combine [roads; parcels] = combine [parcels; roads]
  /\ (Permutation [roads; parcels; ortofoto] [ortofoto; roads; parcels] ->
      combine [roads; parcels; ortofoto] = combine [ortofoto; roads; parcels])
  /\ combine ([roads] ++ [parcels; ortofoto])
     = combine_step (combine [roads]) (combine [parcels; ortofoto]).
Proof.
  exact (combine_laws box box_api box_laws (extent roads) (extent parcels) (extent ortofoto)
           ortofoto roads parcels [roads; parcels; ortofoto]
           [ortofoto; roads; parcels]).
Defined.

(** ** The selection of the layers *)

Section Selection.

Context {Rectangle : Type} `{QgsRectangleApi Rectangle}.

Lemma first_of_filter (project : list (Layer Rectangle)) (layer_name : string) :
  match mapLayersByName project layer_name with
  | l0 :: _ => [l0]
  | [] => []
  end = first_named project layer_name.
Proof.
  unfold mapLayersByName, first_named.
  induction project as [|l project IH]; [reflexivity|]. cbn.
  destruct (String.eqb (name l) layer_name); [reflexivity|exact IH].
Qed.

Lemma resolve_names_fold (project : list (Layer Rectangle))
    (names : list string) (acc : list (Layer Rectangle)) :
  fold_left
    (fun acc layer_name =>
       match mapLayersByName project layer_name with
       | l0 :: _ => acc ++ [l0]
       | [] => acc
       end)
    names acc
  = acc ++ flat_map (first_named project) names.
Proof.
  revert acc. induction names as [|n names IH]; intros acc; cbn.
  - symmetry. apply app_nil_r.
  - rewrite IH, <- (first_of_filter project n).
    destruct (mapLayersByName project n); cbn.
    + reflexivity.
    + rewrite <- app_assoc. reflexivity.
Qed.

Lemma resolve_names_flat_map (project : list (Layer Rectangle))
    (names : list string) :
  resolve_names project names = flat_map (first_named project) names.
Proof. unfold resolve_names. apply resolve_names_fold. Qed.

Lemma first_named_found (project : list (Layer Rectangle)) (n : string) :
  map name (first_named project n) = if resolves project n then [n] else [].
Proof.
  unfold first_named, resolves.
  induction project as [|l project IH]; [reflexivity|]. cbn.
  destruct (String.eqb (name l) n) eqn:E; [|exact IH].
  apply String.eqb_eq in E. cbn. rewrite E. reflexivity.
Qed.

Lemma first_named_in (project : list (Layer Rectangle)) (n : string)
    (l : Layer Rectangle) :
  In l (first_named project n) -> In l project /\ name l = n.
Proof.
  unfold first_named.
  destruct (List.find _ project) as [l'|] eqn:E; [|intros []].
  intros [<-|[]]. apply find_some in E. destruct E as [Hin Hn].
  split; [exact Hin|]. apply String.eqb_eq. exact Hn.
Qed.

Lemma names_of_resolved (project : list (Layer Rectangle)) (names : list string) :
  map name (resolve_names project names) = filter (resolves project) names.
Proof.
  rewrite resolve_names_flat_map.
  induction names as [|n names IH]; [reflexivity|]. cbn.
  rewrite map_app, IH, first_named_found.
  destruct (resolves project n); reflexivity.
Qed.

Lemma layers_to_export_named (project : list (Layer Rectangle))
    (names : list string) :
  names <> [] ->
  layers_to_export project (Some names) = resolve_names project names.
Proof. destruct names; [contradiction|reflexivity]. Qed.

End Selection.

(** C9: with a list of names, each name is resolved by exact match
    among the layers of the project; a name that no layer bears is
    passed over, and the layers found come in the order of the names.
    Of the names roads, cadastre and parcels, among the three layers
    roads, parcels and ortofoto, two layers are found. *)
Theorem named_layers_resolved (Rectangle : Type)
    (project : list (Layer Rectangle)) (names : list string) :
  names <> [] ->
  map name (layers_to_export project (Some names))
  = filter (resolves project) names
  /\ Forall (fun l => In l project /\ In (name l) names)
       (layers_to_export project (Some names))
  /\ layers_to_export [roads; parcels; ortofoto]
       (Some ["roads"; "cadastre"; "parcels"]%string)
     = [roads; parcels].
Proof.
  intros Hn. rewrite layers_to_export_named by exact Hn.
  split; [apply names_of_resolved|]. split; [|reflexivity].
  rewrite resolve_names_flat_map. apply Forall_forall. intros l Hl.
  apply in_flat_map in Hl. destruct Hl as (n & Hin & Hl).
  apply first_named_in in Hl. destruct Hl as [Hp <-]. split; assumption.
Qed.

Lemma named_layers_resolved_witness :
  map name (layers_to_export [roads; roads_copy; parcels]
              (Some ["parcels"; "rivers"; "roads"]%string))
  = filter (resolves [roads; roads_copy; parcels])
      ["parcels"; "rivers"; "roads"]%string
  /\ Forall (fun l => In l [roads; roads_copy; parcels]
                      /\ In (name l) ["parcels"; "rivers"; "roads"]%string)
       (layers_to_export [roads; roads_copy; parcels]
          (Some ["parcels"; "rivers"; "roads"]%string))
  /\ layers_to_export [roads; parcels; ortofoto]
       (Some ["roads"; "cadastre"; "parcels"]%string)
     = [roads; parcels].
Proof.
  apply (named_layers_resolved box [roads; roads_copy; parcels]
           ["parcels"; "rivers"; "roads"]%string).
  discriminate.
Defined.

(** C10: a name that several layers bear brings one layer into the
    selection, the first of them in the order of the host, and not the
    others. *)
Theorem first_match_only (Rectangle : Type)
    (project : list (Layer Rectangle)) (before after : list string)
    (layer_name : string) (l0 : Layer Rectangle)
    (others : list (Layer Rectangle)) :
  mapLayersByName project layer_name = l0 :: others ->
  layers_to_export project (Some (before ++ layer_name :: after))
  = resolve_names project before ++ l0 :: resolve_names project after
  /\ layers_to_export project (Some [layer_name]) = [l0]
  /\ List.find (fun l => String.eqb (name l) layer_name) project = Some l0.
Proof.
  intros Hm.
  assert (Hf : first_named project layer_name = [l0]).
  { rewrite <- first_of_filter, Hm. reflexivity. }
  split; [|split].
  - rewrite layers_to_export_named by (destruct before; discriminate).
    rewrite !resolve_names_flat_map, flat_map_app. cbn. rewrite Hf.
    reflexivity.
  - rewrite layers_to_export_named by discriminate.
    rewrite resolve_names_flat_map. cbn. rewrite Hf. reflexivity.
  - unfold first_named in Hf.
    destruct (List.find _ project); [|discriminate]. congruence.
Qed.

Lemma first_match_only_witness :
  layers_to_export [parcels; roads; ortofoto; roads_copy]
    (Some (["ortofoto"%string] ++ "roads"%string
           :: ["parcels"%string; "roads"%string]))
  = resolve_names [parcels; roads; ortofoto; roads_copy] ["ortofoto"%string]
    ++ roads :: resolve_names [parcels; roads; ortofoto; roads_copy]
                  ["parcels"; "roads"]%string
  /\ layers_to_export [parcels; roads; ortofoto; roads_copy]
       (Some ["roads"%string]) = [roads]
  /\ List.find (fun l => String.eqb (name l) "roads")
       [parcels; roads; ortofoto; roads_copy] = Some roads.
Proof.
  apply (first_match_only box [parcels; roads; ortofoto; roads_copy]
           ["ortofoto"%string] ["parcels"; "roads"]%string "roads" roads
           [roads_copy]).
  reflexivity.
Defined.

(** ** The run without vector layers *)

Lemma layers_dict_fold {Rectangle : Type} (layers : list (Layer Rectangle))
    (d : list (string * Layer Rectangle)) :
  no_vector_layer layers ->
  fold_left
    (fun d layer =>
       match type layer with
       | VectorLayer => dict_set (id layer) layer d
       | _ => d
       end)
    layers d = d.
Proof.
  intros Hn. revert d. induction Hn as [|l layers Hl _ IH]; intros d; cbn.
  - reflexivity.
  - rewrite IH. destruct (type l); [contradiction|reflexivity|reflexivity].
Qed.

(** C8, as stated, fails: with the raster layer alone the run fails,
    but only after the exporter was built and configured. *)
Lemma exporter_contacted_before_failure :
  ~ fails_without_contact (obliging []) [ortofoto] None 500.
Proof.
  intros Hc. destruct Hc as [_ Hcalls].
  - discriminate.
  - repeat constructor. discriminate.
  - vm_compute in Hcalls. discriminate Hcalls.
Qed.

(** The configuration leaves the file as it is, and makes those of its
    calls that the exporter supports. *)
Lemma configure_offers (w : World) (scale : Z) (l : list event) (d : option str) :
  exists evs,
    configure w scale {| log := l; disk := d |}
    = (Next tt, {| log := l ++ evs; disk := d |})
    /\ calls evs
       = (if hasattr w m_setSymbologyScale then [setSymbologyScale scale] else [])
         ++ (if hasattr w m_setSourceCrs then [setSourceCrs "EPSG:5514"%string]
             else if hasattr w m_setCrs then [setCrs "EPSG:5514"%string]
             else [])
         ++ (if mapSettings_raises w then [] else [setMapSettings]).
Proof.
  unfold configure, best_effort, invoke, print, emit, bind, ret.
  destruct (hasattr w m_setSymbologyScale), (hasattr w m_setSourceCrs),
    (hasattr w m_setCrs), (mapSettings_raises w),
    (raises w (setSymbologyScale scale)), (raises w (setSourceCrs "EPSG:5514")),
    (raises w (setCrs "EPSG:5514")), (raises w setMapSettings);
    cbn; rewrite <- ?app_assoc; cbn;
    eexists; split; reflexivity.
Qed.

(** C8, amended: when layers are selected and none of them is a vector
    layer, the run returns [False] without handing any layer to the
    exporter and without making it write, and no file is left.  The
    exporter has been contacted all the same: its constructor is the
    first call, and unless the constructor raised, the exporter has been
    offered, in this order, the scale if it has [setSymbologyScale], the
    coordinate system by [setSourceCrs] if it has it and by [setCrs] if
    it has that instead, and the map settings if they could be had, and
    nothing else.  The last message is the one of line 108, or the one
    of line 194 when the constructor raised. *)
Theorem no_vector_layers_fails (Rectangle : Type) (api : QgsRectangleApi Rectangle)
    (w : World) (project : list (Layer Rectangle))
    (selected_layers : option (list string)) (scale : Z) :
  layers_to_export project selected_layers <> [] ->
  no_vector_layer (layers_to_export project selected_layers) ->
  fst (export_layers_to_dxf w project selected_layers scale) = RFalse
  /\ disk (snd (export_layers_to_dxf w project selected_layers scale)) = None
  /\ forallb setup_call
       (calls (log (snd (export_layers_to_dxf w project selected_layers scale))))
     = true
  /\ In (Call new_QgsDxfExport)
       (log (snd (export_layers_to_dxf w project selected_layers scale)))
  /\ calls (log (snd (export_layers_to_dxf w project selected_layers scale)))
     = new_QgsDxfExport
       :: (if raises w new_QgsDxfExport then []
           else
             (if hasattr w m_setSymbologyScale then [setSymbologyScale scale]
              else [])
             ++ (if hasattr w m_setSourceCrs
                 then [setSourceCrs "EPSG:5514"%string]
                 else if hasattr w m_setCrs then [setCrs "EPSG:5514"%string]
                 else [])
             ++ (if mapSettings_raises w then [] else [setMapSettings]))
  /\ last (log (snd (export_layers_to_dxf w project selected_layers scale)))
       (Print msg_created)
     = Print (if raises w new_QgsDxfExport then msg_unexpected
              else msg_no_vector_layers).
Proof.
  intros Hne Hnv. unfold export_layers_to_dxf.
  destruct (layers_to_export project selected_layers) as [|l ls] eqn:E;
    [contradiction|].
  pose proof (layers_dict_fold (l :: ls) [] Hnv) as Hd.
  fold (layers_dict (l :: ls)) in Hd.
  unfold run_exporter, invoke, print, emit, bind, ret. cbn [log disk app].
  destruct (raises w new_QgsDxfExport).
  - cbn. repeat split. right. left. reflexivity.
  - destruct (configure_offers w scale
                [Print (msg_found (length (l :: ls))); Call new_QgsDxfExport]
                None) as (evs & -> & Hevs).
    rewrite Hd. cbn [fst snd log disk].
    assert (Hcalls : calls (([Print (msg_found (length (l :: ls)));
                              Call new_QgsDxfExport] ++ evs)
                            ++ [Print msg_no_vector_layers])
                     = new_QgsDxfExport :: calls evs).
    { unfold calls. rewrite !flat_map_app. cbn. rewrite app_nil_r.
      reflexivity. }
    repeat split.
    + rewrite Hcalls, Hevs. cbn [forallb setup_call andb].
      destruct (hasattr w m_setSymbologyScale), (hasattr w m_setSourceCrs),
        (hasattr w m_setCrs), (mapSettings_raises w); reflexivity.
    + right. left. reflexivity.
    + rewrite Hcalls, Hevs. reflexivity.
    + apply last_last.
Qed.

Lemma no_vector_layers_fails_witness :
  fst (export_layers_to_dxf (obliging []) [roads; ortofoto]
         (Some ["ortofoto"%string]) 500) = RFalse
  /\ disk (snd (export_layers_to_dxf (obliging []) [roads; ortofoto]
                  (Some ["ortofoto"%string]) 500)) = None
  /\ forallb setup_call
       (calls (log (snd (export_layers_to_dxf (obliging []) [roads; ortofoto]
                           (Some ["ortofoto"%string]) 500))))
     = true
  /\ In (Call new_QgsDxfExport)
       (log (snd (export_layers_to_dxf (obliging []) [roads; ortofoto]
                    (Some ["ortofoto"%string]) 500)))
  /\ calls (log (snd (export_layers_to_dxf (obliging []) [roads; ortofoto]
                        (Some ["ortofoto"%string]) 500)))
     = new_QgsDxfExport
       :: (if raises (obliging []) new_QgsDxfExport then []
           else
             (if hasattr (obliging []) m_setSymbologyScale
              then [setSymbologyScale 500]
              else [])
             ++ (if hasattr (obliging []) m_setSourceCrs
                 then [setSourceCrs "EPSG:5514"%string]
                 else if hasattr (obliging []) m_setCrs
                      then [setCrs "EPSG:5514"%string]
                      else [])
             ++ (if mapSettings_raises (obliging []) then []
                 else [setMapSettings]))
  /\ last (log (snd (export_layers_to_dxf (obliging []) [roads; ortofoto]
                       (Some ["ortofoto"%string]) 500)))
       (Print msg_created)
     = Print (if raises (obliging []) new_QgsDxfExport then msg_unexpected
              else msg_no_vector_layers).
Proof.
  apply (no_vector_layers_fails box box_api (obliging []) [roads; ortofoto]
           (Some ["ortofoto"%string]) 500).
  - discriminate.
  - repeat constructor. discriminate.
Defined.

(** ** Sample runs of the patch *)

(** Leading zeros and extra white space in the value are replaced and
    kept, respectively. *)
Example patch_leading_zeros :
  patch (py "HEADER\n$INSUNITS\n   70\n\n   007\nENDSEC\n")
  = py "HEADER\n$INSUNITS\n   70\n\n   6\nENDSEC\n".
Proof. vm_compute. reflexivity. Qed.

(** With two header pairs the record goes in front of the first
    [ENDSEC] after the first [HEADER]. *)
Example patch_two_sections :
  patch (py "ENDSEC\nHEADER\nENDSEC\nHEADER\nENDSEC\n")
  = py "ENDSEC\nHEADER\n\n$INSUNITS\n 70\n     6\nENDSEC\nHEADER\nENDSEC\n".
Proof. vm_compute. reflexivity. Qed.

(** An [ENDSEC] before the only [HEADER] is no insertion point. *)
Example patch_endsec_before_header :
  patch (py "ENDSEC\nHEADER\nAC1015\n") = py "ENDSEC\nHEADER\nAC1021\n".
Proof. vm_compute. reflexivity. Qed.

(** Without [HEADER] the search for [ENDSEC] starts at the last
    character, and finds nothing. *)
Example patch_endsec_alone :
  patch (py "  0\nENDSEC") = py "  0\nENDSEC".
Proof. vm_compute. reflexivity. Qed.

(** The test of line 162 is on the text [$INSUNITS], and the pattern of
    line 165 on the whole record: a longer directive name passes the
    first and not the second. *)
Example patch_longer_name :
  patch (py "HEADER\n  9\n$INSUNITSDEFSOURCE\n 70\n     4\n  0\nENDSEC\n")
  = py "HEADER\n  9\n$INSUNITSDEFSOURCE\n 70\n     4\n  0\nENDSEC\n".
Proof. vm_compute. reflexivity. Qed.

(** Every record is substituted, and a line 70 of another directive is
    not. *)
Example patch_two_records :
  patch (py "$INSUNITS\n 70\n 1\n$MEASUREMENT\n 70\n 1\n$INSUNITS\n 70\n 4\n")
  = py "$INSUNITS\n 70\n 6\n$MEASUREMENT\n 70\n 1\n$INSUNITS\n 70\n 6\n".
Proof. vm_compute. reflexivity. Qed.

(** A whole run: the vector layers are handed over, the file is written
    and patched. *)
Example export_sample_run :
  export_layers_to_dxf (obliging scenario_B) [roads; ortofoto; roads_copy] None 500
  = (RTrue,
     {| log := [Print (msg_found 2);
                Call new_QgsDxfExport;
                Call (setSymbologyScale 500);
                Call (setSourceCrs "EPSG:5514");
                Call setMapSettings;
                Call (setVectorLayers ["roads_1"%string]);
                Call (writeToFile_device "UTF-8");
                Print msg_version_changed;
                Print msg_units_set;
                Print msg_created];
        disk := Some (py "HEADER\n\n$INSUNITS\n 70\n     6\nENDSEC\n  1\nAC1021\n") |}).
Proof. vm_compute. reflexivity. Qed.

(** ** Further properties: the selection and the dictionary of layers *)

Section MoreSelection.

Context {Rectangle : Type}.

Lemma visible_fold (layers acc : list (Layer Rectangle)) :
  fold_left (fun acc layer => if isVisible layer then acc ++ [layer] else acc)
    layers acc
  = acc ++ filter (fun l => isVisible l) layers.
Proof.
  revert acc. induction layers as [|l layers IH]; intros acc; cbn.
  - symmetry. apply app_nil_r.
  - rewrite IH. destruct (isVisible l); [|reflexivity].
    rewrite <- app_assoc. reflexivity.
Qed.

Lemma dict_set_keys {V : Type} (k : string) (v : V) (d : list (string * V)) :
  (In k (map fst d) -> map fst (dict_set k v d) = map fst d)
  /\ (~ In k (map fst d) -> dict_set k v d = d ++ [(k, v)]).
Proof.
  induction d as [|[k' v'] d [IHin IHout]]; cbn.
  - split; [intros []|reflexivity].
  - destruct (String.eqb_spec k' k) as [->|Hk]; split.
    + reflexivity.
    + intros Hn. exfalso. apply Hn. left. reflexivity.
    + intros [E|Hin]; [contradiction|]. cbn. rewrite IHin by exact Hin.
      reflexivity.
    + intros Hn. rewrite IHout; [reflexivity|].
      intros Hin. apply Hn. right. exact Hin.
Qed.

Lemma dict_get_set {V : Type} (k k' : string) (v : V) (d : list (string * V)) :
  dict_get k' (dict_set k v d)
  = if String.eqb k k' then Some v else dict_get k' d.
Proof.
  induction d as [|[k0 v0] d IH]; cbn.
  - reflexivity.
  - destruct (String.eqb_spec k0 k) as [->|Hk]; cbn.
    + destruct (String.eqb k k'); reflexivity.
    + rewrite IH. destruct (String.eqb_spec k0 k') as [->|Hk'];
        [|reflexivity].
      destruct (String.eqb_spec k k') as [->|_]; [contradiction|reflexivity].
Qed.

(** One more turn of the loop of lines 103-105. *)
Lemma layers_dict_snoc (layers : list (Layer Rectangle)) (l : Layer Rectangle) :
  layers_dict (layers ++ [l])
  = if is_vector l then dict_set (id l) l (layers_dict layers)
    else layers_dict layers.
Proof.
  unfold layers_dict, is_vector. rewrite fold_left_app. cbn.
  destruct (type l); reflexivity.
Qed.

Lemma layers_dict_invariant (layers : list (Layer Rectangle)) :
  NoDup (map fst (layers_dict layers))
  /\ (forall k, In k (map fst (layers_dict layers)) <->
                exists l, In l layers /\ is_vector l = true /\ id l = k)
  /\ Forall (fun kv => fst kv = id (snd kv) /\ is_vector (snd kv) = true
                       /\ In (snd kv) layers)
       (layers_dict layers).
Proof.
  induction layers as [|l layers (Hnd & Hkeys & Hvals)] using rev_ind.
  - cbn. split; [constructor|]. split; [|constructor].
    intros k. split; [intros []|intros (l & [] & _)].
  - rewrite layers_dict_snoc.
    assert (Hold : Forall (fun kv => fst kv = id (snd kv)
                                     /\ is_vector (snd kv) = true
                                     /\ In (snd kv) (layers ++ [l]))
                     (layers_dict layers)).
    { eapply Forall_impl; [|exact Hvals]. cbn. intros kv (E & Hv & Hin).
      repeat split; [exact E|exact Hv|]. apply in_or_app. left. exact Hin. }
    destruct (is_vector l) eqn:Hl.
    + destruct (dict_set_keys (id l) l (layers_dict layers)) as [Kin Kout].
      destruct (in_dec string_dec (id l) (map fst (layers_dict layers)))
        as [Hin|Hout].
      * rewrite (Kin Hin). split; [exact Hnd|]. split.
        -- intros k. rewrite Hkeys. split.
           ++ intros (l' & Hl' & Hv & E). exists l'. repeat split; try assumption.
              apply in_or_app. left. exact Hl'.
           ++ intros (l' & Hl' & Hv & E). apply in_app_or in Hl'.
              destruct Hl' as [Hl'|[<-|[]]].
              ** exists l'. repeat split; assumption.
              ** apply Hkeys. rewrite <- E. exact Hin.
        -- clear Kin Kout Hin Hkeys Hnd Hvals.
           induction (layers_dict layers) as [|[k0 v0] d IHd]; cbn.
           ++ repeat constructor; [exact Hl|]. apply in_or_app. right. left.
              reflexivity.
           ++ inversion Hold as [|? ? H0 Hd]; subst.
              destruct (String.eqb k0 (id l)).
              ** constructor; [|exact Hd]. cbn. repeat split; [exact Hl|].
                 apply in_or_app. right. left. reflexivity.
              ** constructor; [exact H0|]. apply IHd. exact Hd.
      * rewrite (Kout Hout), map_app. cbn. split; [|split].
        -- apply NoDup_app; [exact Hnd|repeat constructor; intros []|].
           intros k Hk [<-|[]]. contradiction.
        -- intros k. rewrite in_app_iff, Hkeys. cbn. split.
           ++ intros [(l' & Hl' & Hv & E)|[<-|[]]].
              ** exists l'. repeat split; try assumption.
                 apply in_or_app. left. exact Hl'.
              ** exists l. repeat split; [|exact Hl].
                 apply in_or_app. right. left. reflexivity.
           ++ intros (l' & Hl' & Hv & E). apply in_app_or in Hl'.
              destruct Hl' as [Hl'|[<-|[]]].
              ** left. exists l'. repeat split; assumption.
              ** right. left. exact E.
        -- apply Forall_app. split; [exact Hold|]. repeat constructor.
           ++ exact Hl.
           ++ apply in_or_app. right. left. reflexivity.
    + split; [exact Hnd|]. split; [|exact Hold].
      intros k. rewrite Hkeys. split.
      * intros (l' & Hl' & Hv & E). exists l'. repeat split; try assumption.
        apply in_or_app. left. exact Hl'.
      * intros (l' & Hl' & Hv & E). apply in_app_or in Hl'.
        destruct Hl' as [Hl'|[<-|[]]]; [|congruence].
        exists l'. repeat split; assumption.
Qed.

Lemma no_vector_is_vector (layers : list (Layer Rectangle)) :
  no_vector_layer layers <-> forall l, In l layers -> is_vector l = false.
Proof.
  unfold no_vector_layer, is_vector. rewrite Forall_forall. split.
  - intros Hn l Hl. specialize (Hn l Hl). destruct (type l); congruence.
  - intros Hn l Hl E. specialize (Hn l Hl). rewrite E in Hn. discriminate.
Qed.

Lemma layers_dict_nil (layers : list (Layer Rectangle)) :
  layers_dict layers = [] <-> no_vector_layer layers.
Proof.
  destruct (layers_dict_invariant layers) as (_ & Hkeys & _).
  rewrite no_vector_is_vector. split.
  - intros E l Hl. destruct (is_vector l) eqn:Hv; [|reflexivity].
    exfalso. rewrite E in Hkeys. apply (proj2 (Hkeys (id l))).
    exists l. repeat split; assumption.
  - intros Hn. destruct (layers_dict layers) as [|[k v] d]; [reflexivity|].
    exfalso. destruct (proj1 (Hkeys k)) as (l & Hl & Hv & _).
    + left. reflexivity.
    + rewrite (Hn l Hl) in Hv. discriminate.
Qed.

End MoreSelection.

(** X1: without names, be it [None] or an empty list, the selection is
    the visible layers of the tree, in the order of the tree; and
    whatever is asked for, every layer selected is a layer of the
    project. *)
Theorem visible_selection (Rectangle : Type) (project : list (Layer Rectangle))
    (selected_layers : option (list string)) :
  layers_to_export project None = filter (fun l => isVisible l) project
  /\ layers_to_export project (Some []) = filter (fun l => isVisible l) project
  /\ Forall (fun l => In l project) (layers_to_export project selected_layers).
Proof.
  assert (Hv : visible_layers project = filter (fun l => isVisible l) project).
  { unfold visible_layers, findLayers. apply (visible_fold project []). }
  split; [exact Hv|]. split; [exact Hv|].
  apply Forall_forall. intros l Hl.
  destruct selected_layers as [[|n names]|]; cbn [layers_to_export] in Hl.
  - rewrite Hv in Hl. apply filter_In in Hl. apply Hl.
  - rewrite resolve_names_flat_map in Hl. apply in_flat_map in Hl.
    destruct Hl as (n' & _ & Hl). apply first_named_in in Hl. apply Hl.
  - rewrite Hv in Hl. apply filter_In in Hl. apply Hl.
Qed.

(** X2: the dictionary of lines 102-105 holds each id once; its keys are
    the ids of the vector layers of the selection; each value is a
    vector layer of the selection, kept under its own id; and it is
    empty exactly when the selection has no vector layer. *)
Theorem vector_layers_by_id (Rectangle : Type) (layers : list (Layer Rectangle)) :
  NoDup (map fst (layers_dict layers))
  /\ (forall k, In k (map fst (layers_dict layers)) <->
                exists l, In l layers /\ type l = VectorLayer /\ id l = k)
  /\ Forall (fun kv => fst kv = id (snd kv) /\ type (snd kv) = VectorLayer
                       /\ In (snd kv) layers)
       (layers_dict layers)
  /\ (layers_dict layers = [] <-> no_vector_layer layers).
Proof.
  assert (Hv : forall l : Layer Rectangle,
            is_vector l = true <-> type l = VectorLayer).
  { intros l. unfold is_vector. destruct (type l); split; congruence. }
  destruct (layers_dict_invariant layers) as (Hnd & Hkeys & Hvals).
  split; [exact Hnd|]. split; [|split; [|apply layers_dict_nil]].
  - intros k. rewrite Hkeys. split; intros (l & Hl & Hvl & E); exists l;
      repeat split; try assumption; apply Hv; exact Hvl.
  - eapply Forall_impl; [|exact Hvals]. cbn. intros kv (E & Hvl & Hin).
    repeat split; [exact E| apply Hv; exact Hvl | exact Hin].
Qed.

(** X3: when the selected layers have distinct ids, the dictionary lists
    the vector layers of the selection in the order of the selection,
    each under its id. *)
Theorem distinct_ids_keep_order (Rectangle : Type)
    (layers : list (Layer Rectangle)) :
  NoDup (map id layers) ->
  layers_dict layers = map (fun l => (id l, l)) (filter is_vector layers).
Proof.
  induction layers as [|l layers IH] using rev_ind; intros Hnd; [reflexivity|].
  rewrite map_app in Hnd. cbn in Hnd.
  pose proof (NoDup_app_remove_r _ _ Hnd) as Hnd'.
  rewrite layers_dict_snoc, filter_app, map_app. cbn.
  destruct (is_vector l) eqn:Hl; cbn; rewrite IH by exact Hnd';
    [|rewrite app_nil_r; reflexivity].
  apply (proj2 (dict_set_keys (id l) l _)).
  rewrite <- IH by exact Hnd'.
  destruct (layers_dict_invariant layers) as (_ & Hkeys & _).
  rewrite Hkeys. intros (l' & Hl' & _ & E).
  apply NoDup_remove_2 in Hnd. apply Hnd. rewrite app_nil_r.
  rewrite <- E. apply in_map. exact Hl'.
Qed.

Lemma distinct_ids_keep_order_witness :
  layers_dict [roads; ortofoto; parcels; roads_copy]
  = map (fun l => (id l, l)) (filter is_vector [roads; ortofoto; parcels; roads_copy]).
Proof.
  apply (distinct_ids_keep_order box [roads; ortofoto; parcels; roads_copy]).
  repeat constructor; cbn; intuition discriminate.
Defined.

(** X4: the layer kept under an id is the last vector layer of the
    selection with that id, a later layer replacing an earlier one. *)
Theorem same_id_last_wins (Rectangle : Type) (layers : list (Layer Rectangle))
    (k : string) :
  dict_get k (layers_dict layers)
  = List.find (fun l => is_vector l && String.eqb (id l) k) (rev layers).
Proof.
  induction layers as [|l layers IH] using rev_ind; [reflexivity|].
  rewrite layers_dict_snoc, rev_app_distr. cbn.
  destruct (is_vector l); cbn; [|exact IH].
  rewrite dict_get_set, IH. reflexivity.
Qed.

(** ** Further properties: the dialogue with the exporter *)

Lemma last_app_nonempty {A : Type} (l r : list A) (d : A) :
  r <> [] -> last (l ++ r) d = last r d.
Proof.
  intros Hr. induction l as [|a l IH]; [reflexivity|].
  cbn [app last]. destruct (l ++ r) eqn:E; [|exact IH].
  apply app_eq_nil in E. destruct E as [_ E]. contradiction.
Qed.

Lemma configure_next (w : World) (scale : Z) (l : list event) (d : option str) :
  exists evs,
    configure w scale {| log := l; disk := d |}
    = (Next tt, {| log := l ++ evs; disk := d |})
    /\ Forall (configure_event w scale) evs.
Proof.
  unfold configure, best_effort, invoke, print, emit, bind, ret, configure_event.
  destruct (hasattr w m_setSymbologyScale) eqn:H1,
    (hasattr w m_setSourceCrs) eqn:H2, (hasattr w m_setCrs) eqn:H3,
    (mapSettings_raises w) eqn:H4,
    (raises w (setSymbologyScale scale)), (raises w (setSourceCrs "EPSG:5514")),
    (raises w (setCrs "EPSG:5514")), (raises w setMapSettings);
    cbn; rewrite <- ?app_assoc; cbn;
    (eexists; split; [reflexivity|]);
    repeat apply Forall_cons; try apply Forall_nil; tauto.
Qed.

Lemma hand_over_next (w : World) (ids : list string) (l : list event)
    (d : option str) :
  exists evs,
    hand_over w ids {| log := l; disk := d |}
    = (Next tt, {| log := l ++ evs; disk := d |})
    /\ Forall (hand_over_event w ids) evs.
Proof.
  unfold hand_over, best_effort, invoke, print, emit, bind, ret, hand_over_event.
  destruct (hasattr w m_setVectorLayers) eqn:H1, (hasattr w m_setLayers) eqn:H2,
    (raises w (setVectorLayers ids)), (raises w (setLayers ids));
    cbn; rewrite <- ?app_assoc; cbn;
    try ((eexists; split; [reflexivity|]);
         repeat apply Forall_cons; try apply Forall_nil; tauto);
    (exists []; rewrite app_nil_r; split; [reflexivity|apply Forall_nil]).
Qed.

Ltac file_cases w :=
  unfold export_file, postprocess, writeToFile, bind, ret, return_, print, emit,
    read_file, write_file;
  destruct (QFile_raises w) eqn:?, (open_ok w) eqn:?,
    (write_device w) as [|[|]] eqn:?, (write_path w) as [|[|]] eqn:?,
    (exported w) as [?|] eqn:?, (writable w) eqn:?,
    (failed_write_leaves w) as [?|] eqn:?;
  cbn; rewrite <- ?app_assoc; cbn.

Lemma export_file_log (w : World) (l : list event) (d : option str) :
  exists evs,
    log (snd (export_file w {| log := l; disk := d |})) = l ++ evs
    /\ Forall (export_file_event w) evs
    /\ (returned (export_file w {| log := l; disk := d |}) = RTrue ->
        (In (Print warn_patch) evs <-> exported w = None \/ writable w = false)).
Proof.
  unfold export_file_event, returned. file_cases w;
    (eexists; split; [reflexivity|]);
    (split;
     [ repeat apply Forall_cons; try apply Forall_nil;
       solve [ tauto
             | right; right; eexists; reflexivity ]
     | intros Hr; try discriminate Hr; cbn; intuition (try discriminate) ]).
Qed.

(** The value returned by lines 121-187 is [True] or [False], and it is
    [True] exactly when a call of [writeToFile] returned a value other
    than [None]. *)
Lemma export_file_returned (w : World) (l : list event) (d : option str) :
  returned (export_file w {| log := l; disk := d |}) <> RNone
  /\ (returned (export_file w {| log := l; disk := d |}) = RTrue <->
      (QFile_raises w = false /\ open_ok w = true
       /\ write_device w = Returns false)
      \/ ((QFile_raises w = true
           \/ open_ok w = true /\ write_device w = Raises)
          /\ write_path w = Returns false)).
Proof.
  unfold returned. file_cases w; (split; [discriminate|]);
    intuition (try discriminate).
Qed.

(** After a successful export the file is the patched one; when it
    cannot be read, or opened to be written again, it is the exported
    one, and when the write fails, what the failed write leaves. *)
Lemma export_file_true (w : World) (l : list event) (d : option str) :
  returned (export_file w {| log := l; disk := d |}) = RTrue ->
  disk (snd (export_file w {| log := l; disk := d |}))
  = match exported w with
    | Some content =>
        if writable w then Some (patch content)
        else match failed_write_leaves w with
             | Some torn => Some torn
             | None => Some content
             end
    | None => None
    end
  /\ last (log (snd (export_file w {| log := l; disk := d |})))
       (Print msg_no_layers) = Print msg_created
  /\ existsb write_call
       (calls (log (snd (export_file w {| log := l; disk := d |})))) = true.
Proof.
  unfold returned. file_cases w;
    intros Hr; try discriminate Hr;
    (split; [reflexivity|]);
    (split; [rewrite last_app_nonempty by discriminate; reflexivity|]);
    unfold calls; rewrite flat_map_app, existsb_app; cbn;
    apply orb_true_r.
Qed.


Lemma export_file_same (w w' : World) (l l' : list event) (d d' : option str) :
  QFile_raises w = QFile_raises w' -> open_ok w = open_ok w' ->
  write_device w = write_device w' -> write_path w = write_path w' ->
  returned (export_file w {| log := l; disk := d |})
  = returned (export_file w' {| log := l'; disk := d' |})
  /\ (exported w = exported w' -> writable w = writable w' ->
      failed_write_leaves w = failed_write_leaves w' -> d = d' ->
      disk (snd (export_file w {| log := l; disk := d |}))
      = disk (snd (export_file w' {| log := l'; disk := d' |}))).
Proof.
  intros E1 E2 E3 E4.
  unfold export_file, postprocess, writeToFile, bind, ret, return_, print, emit,
    read_file, write_file, returned.
  rewrite <- E1, <- E2, <- E3, <- E4.
  destruct (QFile_raises w), (open_ok w), (write_device w) as [|[|]],
    (write_path w) as [|[|]], (exported w), (exported w'), (writable w),
    (writable w'), (failed_write_leaves w), (failed_write_leaves w');
    cbn; (split; [reflexivity|]); intros; subst; congruence.
Qed.


Lemma nil_or_not {A : Type} (l : list A) : l = [] \/ l <> [].
Proof. destruct l; [left; reflexivity|right; discriminate]. Qed.

Section MoreDialogue.

Context {Rectangle : Type} `{QgsRectangleApi Rectangle}.

Lemma layers_dict_ids (layers : list (Layer Rectangle)) :
  map (fun kv => id (snd kv)) (layers_dict layers) = map fst (layers_dict layers).
Proof.
  destruct (layers_dict_invariant layers) as (_ & _ & Hv).
  apply map_ext_in. intros kv Hin.
  rewrite Forall_forall in Hv. destruct (Hv kv Hin) as (-> & _). reflexivity.
Qed.

Lemma export_layers_nothing (w : World) (project : list (Layer Rectangle))
    (selected_layers : option (list string)) (scale : Z) :
  layers_to_export project selected_layers = [] ->
  export_layers_to_dxf w project selected_layers scale
  = (RNone, {| log := [Print msg_no_layers]; disk := None |}).
Proof.
  intros E. unfold export_layers_to_dxf. rewrite E. reflexivity.
Qed.

Lemma export_layers_shape (w : World) (project : list (Layer Rectangle))
    (selected_layers : option (list string)) (scale : Z) :
  layers_to_export project selected_layers <> [] ->
  run_shape w scale (layers_to_export project selected_layers)
    (export_layers_to_dxf w project selected_layers scale).
Proof.
  intros Hne. unfold export_layers_to_dxf.
  set (layers := layers_to_export project selected_layers) in *.
  destruct layers as [|l0 ls] eqn:E; [contradiction|]. rewrite <- E. clear E.
  unfold run_exporter, invoke, print, emit, bind, ret. cbn [log disk app].
  destruct (raises w new_QgsDxfExport) eqn:Hnew.
  - cbn. apply shape_unexpected. exact Hnew.
  - destruct (configure_next w scale
                [Print (msg_found (length layers)); Call new_QgsDxfExport]
                None) as (cfg & -> & Hcfg).
    cbv zeta. rewrite layers_dict_ids.
    destruct (layers_dict layers) as [|kv dict] eqn:Hd.
    + cbn. rewrite <- ?app_assoc. cbn.
      apply shape_no_vector; assumption.
    + rewrite <- Hd.
      destruct (hand_over_next w (map fst (layers_dict layers))
                  ([Print (msg_found (length layers)); Call new_QgsDxfExport]
                   ++ cfg) None) as (ho & -> & Hho).
      rewrite <- ?app_assoc. cbn [app].
      assert (Hne' : layers_dict layers <> []) by (rewrite Hd; discriminate).
      pose proof (shape_export w scale layers cfg ho _ Hnew Hne' Hcfg Hho eq_refl)
        as S.
      unfold returned in S.
      destruct (export_file w _) as [[r|r] st]; exact S.
Qed.

End MoreDialogue.

Lemma Forall_calls (Q : event -> Prop) (P : call -> Prop) (l : list event) :
  (forall c, Q (Call c) -> P c) -> Forall Q l -> Forall P (calls l).
Proof.
  intros HQ Hl. induction Hl as [|[c|m] l Hx _ IH]; cbn.
  - constructor.
  - constructor; [apply HQ; exact Hx|exact IH].
  - exact IH.
Qed.


Lemma calls_app (l l' : list event) : calls (l ++ l') = calls l ++ calls l'.
Proof. unfold calls. apply flat_map_app. Qed.


Lemma configure_event_quiet (w : World) (scale : Z) (e : event) :
  configure_event w scale e ->
  negb (after_export e) = true
  /\ match e with Call c => negb (write_call c) | Print _ => true end = true.
Proof.
  unfold configure_event.
  intros [(-> & _)|[(-> & _)|[(-> & _)|[(-> & _)|[->|[->| ->]]]]]];
    split; reflexivity.
Qed.

Lemma hand_over_event_quiet (w : World) (ids : list string) (e : event) :
  hand_over_event w ids e ->
  negb (after_export e) = true
  /\ match e with Call c => negb (write_call c) | Print _ => true end = true.
Proof.
  unfold hand_over_event. intros [(-> & _)|[(-> & _)| ->]]; split; reflexivity.
Qed.


Section MoreRuns.

Context {Rectangle : Type} `{QgsRectangleApi Rectangle}.

Lemma configure_permitted (w : World) (scale : Z)
    (layers : list (Layer Rectangle)) (c : call) :
  raises w new_QgsDxfExport = false ->
  configure_event w scale (Call c) -> permitted w scale layers c.
Proof.
  unfold configure_event, permitted. intros Hnew Hc.
  destruct c; intuition (try discriminate; try congruence).
Qed.

Lemma hand_over_permitted (w : World) (scale : Z)
    (layers : list (Layer Rectangle)) (c : call) :
  raises w new_QgsDxfExport = false ->
  layers_dict layers <> [] ->
  hand_over_event w (map fst (layers_dict layers)) (Call c) ->
  permitted w scale layers c.
Proof.
  unfold hand_over_event, permitted. intros Hnew Hd Hc.
  assert (Hids : map fst (layers_dict layers) <> []).
  { destruct (layers_dict layers); [contradiction|discriminate]. }
  destruct c; intuition (try discriminate; try congruence).
Qed.

Lemma export_file_permitted (w : World) (scale : Z)
    (layers : list (Layer Rectangle)) (c : call) :
  raises w new_QgsDxfExport = false ->
  layers_dict layers <> [] ->
  export_file_event w (Call c) -> permitted w scale layers c.
Proof.
  unfold export_file_event, permitted. intros Hnew Hd Hc.
  destruct c;
    repeat match goal with
           | H : _ \/ _ |- _ => destruct H
           | H : _ /\ _ |- _ => destruct H
           | H : exists _, _ |- _ => destruct H
           end; try discriminate; intuition congruence.
Qed.

End MoreRuns.

Ltac run_cases S :=
  let Hrun := fresh "Hrun" in
  inversion S as [Hnew Hrun | cfg Hnew Hdict Hcfg Hrun
                 | cfg ho start Hnew Hdict Hcfg Hho Hstart Hrun];
  cbn [fst snd log disk].

(** X5: the run returns nothing exactly when no layer was found to
    export (line 53), and then all it did was to say so (line 54); a run
    that found layers says first how many (line 57). *)
Theorem nothing_returned_without_layers (Rectangle : Type)
    (api : QgsRectangleApi Rectangle) (w : World)
    (project : list (Layer Rectangle)) (selected_layers : option (list string))
    (scale : Z) :
  (fst (export_layers_to_dxf w project selected_layers scale) = RNone
   <-> layers_to_export project selected_layers = [])
  /\ (snd (export_layers_to_dxf w project selected_layers scale)
      = {| log := [Print msg_no_layers]; disk := None |}
      <-> layers_to_export project selected_layers = [])
  /\ (layers_to_export project selected_layers <> [] ->
      hd_error (log (snd (export_layers_to_dxf w project selected_layers scale)))
      = Some (Print (msg_found
                       (length (layers_to_export project selected_layers))))).
Proof.
  destruct (nil_or_not (layers_to_export project selected_layers)) as [E|Hne].
  - rewrite (export_layers_nothing w _ _ _ E). cbn.
    repeat split; intros; try assumption; try reflexivity; contradiction.
  - pose proof (export_layers_shape w project selected_layers scale Hne) as S.
    run_cases S; repeat split; try discriminate; try reflexivity;
      try (intros; contradiction).
    + intros Hr.
      destruct (export_file_returned w start None) as (Hn & _).
      contradiction.
    + intros Hs. apply (f_equal log) in Hs.
      destruct (export_file_log w start None) as (evs & Hl & _).
      rewrite Hl, Hstart in Hs. discriminate Hs.
    + intros _.
      destruct (export_file_log w start None) as (evs & -> & _).
      rewrite Hstart. reflexivity.
Qed.

(** X6: what the exporter has by way of setters, and whether they or
    the map settings raise, decides neither the value returned nor the
    file: two runs that differ in that alone return the same, and leave
    the same file when the exporter writes the same text and the
    writing back of lines 175-176 goes the same way (lines 77-100 and
    111-118 never abort the export). *)
Theorem setters_do_not_decide (Rectangle : Type)
    (api : QgsRectangleApi Rectangle) (w w' : World)
    (project : list (Layer Rectangle)) (selected_layers : option (list string))
    (scale : Z) :
  same_writing w w' ->
  fst (export_layers_to_dxf w project selected_layers scale)
  = fst (export_layers_to_dxf w' project selected_layers scale)
  /\ (exported w = exported w' -> writable w = writable w' ->
      failed_write_leaves w = failed_write_leaves w' ->
      disk (snd (export_layers_to_dxf w project selected_layers scale))
      = disk (snd (export_layers_to_dxf w' project selected_layers scale))).
Proof.
  intros (En & E1 & E2 & E3 & E4).
  destruct (nil_or_not (layers_to_export project selected_layers)) as [E|Hne].
  - rewrite !(export_layers_nothing _ _ _ _ E). split; reflexivity.
  - pose proof (export_layers_shape w project selected_layers scale Hne) as S.
    pose proof (export_layers_shape w' project selected_layers scale Hne) as S'.
    inversion S as [Hnew Hrun | cfg Hnew Hdict Hcfg Hrun
                   | cfg ho start Hnew Hdict Hcfg Hho Hstart Hrun];
      inversion S' as [Hnew' Hrun' | cfg' Hnew' Hdict' Hcfg' Hrun'
                      | cfg' ho' start' Hnew' Hdict' Hcfg' Hho' Hstart' Hrun'];
      try congruence; cbn [fst snd log disk];
      try (split; reflexivity).
    destruct (export_file_same w w' start start' None None E1 E2 E3 E4)
      as (Hr & Hd).
    split; [exact Hr|]. intros Ex Ew Ef.
    apply Hd; [exact Ex|exact Ew|exact Ef|reflexivity].
Qed.

Lemma setters_do_not_decide_witness :
  fst (export_layers_to_dxf (obliging scenario_B) [roads; ortofoto] None 500)
  = fst (export_layers_to_dxf (reluctant scenario_B) [roads; ortofoto] None 500)
  /\ (exported (obliging scenario_B) = exported (reluctant scenario_B) ->
      writable (obliging scenario_B) = writable (reluctant scenario_B) ->
      failed_write_leaves (obliging scenario_B)
      = failed_write_leaves (reluctant scenario_B) ->
      disk (snd (export_layers_to_dxf (obliging scenario_B) [roads; ortofoto]
                   None 500))
      = disk (snd (export_layers_to_dxf (reluctant scenario_B) [roads; ortofoto]
                     None 500))).
Proof.
  apply (setters_do_not_decide box box_api (obliging scenario_B)
           (reluctant scenario_B) [roads; ortofoto] None 500).
  repeat split; reflexivity.
Defined.

(** X7: the run returns [True] exactly when the constructor did not
    raise, a vector layer is among the layers to export, and a call of
    [writeToFile] returned a value other than [None]: the first, with
    the open file, or the second, with the path, which is tried when
    [QFile] or the first call raised, and not when the file could not
    be opened (lines 121-148). *)
Theorem success_exactly_when_written (Rectangle : Type)
    (api : QgsRectangleApi Rectangle) (w : World)
    (project : list (Layer Rectangle)) (selected_layers : option (list string))
    (scale : Z) :
  fst (export_layers_to_dxf w project selected_layers scale) = RTrue
  <-> raises w new_QgsDxfExport = false
      /\ ~ no_vector_layer (layers_to_export project selected_layers)
      /\ ((QFile_raises w = false /\ open_ok w = true
           /\ write_device w = Returns false)
          \/ ((QFile_raises w = true
               \/ open_ok w = true /\ write_device w = Raises)
              /\ write_path w = Returns false)).
Proof.
  rewrite <- layers_dict_nil.
  destruct (nil_or_not (layers_to_export project selected_layers)) as [E|Hne].
  - rewrite (export_layers_nothing w _ _ _ E), E. cbn.
    split; [discriminate|]. intros (_ & Hd & _). contradiction Hd. reflexivity.
  - pose proof (export_layers_shape w project selected_layers scale Hne) as S.
    run_cases S.
    + split; [discriminate|]. intros (Hn & _). congruence.
    + split; [discriminate|]. intros (_ & Hd & _). contradiction.
    + destruct (export_file_returned w start None) as (_ & ->). tauto.
Qed.

(** X8: after a run that returns [True] the file holds the patched
    text of the export when the patch went through.  Otherwise the
    warning of line 181 is printed, in these cases only, and the run
    returns [True] all the same: the file holds the exported text when
    it could not be read, or not be opened to be written again (line
    175), and when the write failed after that [open], which empties the
    file, it holds what the failed write left, the exported text being
    lost.  The exporter was made to write, and the last message is the
    one of line 186. *)
Theorem success_leaves_patched_file (Rectangle : Type)
    (api : QgsRectangleApi Rectangle) (w : World)
    (project : list (Layer Rectangle)) (selected_layers : option (list string))
    (scale : Z) :
  fst (export_layers_to_dxf w project selected_layers scale) = RTrue ->
  disk (snd (export_layers_to_dxf w project selected_layers scale))
  = match exported w with
    | Some content =>
        if writable w then Some (patch content)
        else match failed_write_leaves w with
             | Some torn => Some torn
             | None => Some content
             end
    | None => None
    end
  /\ (In (Print warn_patch)
        (log (snd (export_layers_to_dxf w project selected_layers scale)))
      <-> exported w = None \/ writable w = false)
  /\ existsb write_call
       (calls (log (snd (export_layers_to_dxf w project selected_layers scale))))
     = true
  /\ last (log (snd (export_layers_to_dxf w project selected_layers scale)))
       (Print msg_no_layers)
     = Print msg_created.
Proof.
  destruct (nil_or_not (layers_to_export project selected_layers)) as [E|Hne].
  - rewrite (export_layers_nothing w _ _ _ E). discriminate.
  - pose proof (export_layers_shape w project selected_layers scale Hne) as S.
    run_cases S; try discriminate. intros Hr.
    destruct (export_file_true w start None Hr) as (Hd & Hl & Hw).
    destruct (export_file_log w start None) as (evs & Hlog & _ & Hp).
    specialize (Hp Hr).
    repeat split; try assumption.
    + intros Hin. apply Hp. rewrite Hlog, Hstart in Hin.
      cbn in Hin. rewrite !in_app_iff in Hin.
      destruct Hin as [Hin|[Hin|[[Hin|Hin]|Hin]]]; try discriminate Hin;
        try exact Hin.
      * rewrite Forall_forall in Hcfg.
        destruct (configure_event_quiet _ _ _ (Hcfg _ Hin)) as (Hq & _).
        discriminate Hq.
      * rewrite Forall_forall in Hho.
        destruct (hand_over_event_quiet _ _ _ (Hho _ Hin)) as (Hq & _).
        discriminate Hq.
    + intros Hx. rewrite Hlog. apply in_or_app. right. apply Hp. exact Hx.
Qed.

Lemma success_leaves_patched_file_witness :
  disk (snd (export_layers_to_dxf (torn_write scenario_B) [roads; ortofoto]
               None 500))
  = match exported (torn_write scenario_B) with
    | Some content =>
        if writable (torn_write scenario_B) then Some (patch content)
        else match failed_write_leaves (torn_write scenario_B) with
             | Some torn => Some torn
             | None => Some content
             end
    | None => None
    end
  /\ (In (Print warn_patch)
        (log (snd (export_layers_to_dxf (torn_write scenario_B) [roads; ortofoto]
                     None 500)))
      <-> exported (torn_write scenario_B) = None
          \/ writable (torn_write scenario_B) = false)
  /\ existsb write_call
       (calls (log (snd (export_layers_to_dxf (torn_write scenario_B)
                           [roads; ortofoto] None 500))))
     = true
  /\ last (log (snd (export_layers_to_dxf (torn_write scenario_B)
                       [roads; ortofoto] None 500)))
       (Print msg_no_layers)
     = Print msg_created.
Proof.
  apply (success_leaves_patched_file box box_api (torn_write scenario_B)
           [roads; ortofoto] None 500).
  reflexivity.
Defined.



(** X10: no call is made out of place.  Every call recorded is
    permitted: the setters are called only on an exporter that has
    them, the second of each pair only on one that lacks the first,
    with the scale given, [EPSG:5514] and the ids of the dictionary;
    [writeToFile] only when there is a vector layer, with the path only
    when the first way raised.  A run without layers makes no call, and
    any other begins with the constructor. *)
Theorem calls_in_their_place (Rectangle : Type)
    (api : QgsRectangleApi Rectangle) (w : World)
    (project : list (Layer Rectangle)) (selected_layers : option (list string))
    (scale : Z) :
  Forall (permitted w scale (layers_to_export project selected_layers))
    (calls (log (snd (export_layers_to_dxf w project selected_layers scale))))
  /\ (layers_to_export project selected_layers = [] <->
      calls (log (snd (export_layers_to_dxf w project selected_layers scale)))
      = [])
  /\ (layers_to_export project selected_layers <> [] <->
      hd_error
        (calls (log (snd (export_layers_to_dxf w project selected_layers scale))))
      = Some new_QgsDxfExport).
Proof.
  assert (Hfirst : permitted w scale (layers_to_export project selected_layers)
                     new_QgsDxfExport).
  { split; [left; reflexivity|exact I]. }
  destruct (nil_or_not (layers_to_export project selected_layers)) as [E|Hne].
  - rewrite (export_layers_nothing w _ _ _ E). cbn.
    repeat split; intros; try assumption; try reflexivity;
      try apply Forall_nil; congruence.
  - pose proof (export_layers_shape w project selected_layers scale Hne) as S.
    run_cases S.
    + cbn. repeat split; intros; try assumption; try congruence.
      constructor; [exact Hfirst|constructor].
    + cbn. rewrite calls_app.
      repeat split; intros; try assumption; try congruence.
      constructor; [exact Hfirst|]. apply Forall_app. split.
      * apply (Forall_calls (configure_event w scale)); [|exact Hcfg].
        intros c. apply configure_permitted. exact Hnew.
      * constructor.
    + destruct (export_file_log w start None) as (evs & -> & Hevs & _).
      rewrite Hstart. cbn. rewrite !calls_app.
      repeat split; intros; try assumption; try congruence.
      constructor; [exact Hfirst|]. rewrite !Forall_app. repeat split.
      * apply (Forall_calls (configure_event w scale)); [|exact Hcfg].
        intros c. apply configure_permitted. exact Hnew.
      * apply (Forall_calls _ _ _ (fun c => hand_over_permitted w scale _ c
                                              Hnew Hdict) Hho).
      * apply (Forall_calls _ _ _ (fun c => export_file_permitted w scale _ c
                                              Hnew Hdict) Hevs).
Qed.



Section ExtentUnused.

Context {Rectangle Rectangle' : Type}.
Variable f : Layer Rectangle -> Rectangle'.

Lemma first_named_with_extent (project : list (Layer Rectangle))
    (layer_name : string) :
  first_named (map (with_extent f) project) layer_name
  = map (with_extent f) (first_named project layer_name).
Proof.
  unfold first_named. induction project as [|l project IH]; [reflexivity|].
  cbn [map List.find with_extent name].
  destruct (String.eqb (name l) layer_name); [reflexivity|exact IH].
Qed.

Lemma layers_to_export_with_extent (project : list (Layer Rectangle))
    (selected_layers : option (list string)) :
  layers_to_export (map (with_extent f) project) selected_layers
  = map (with_extent f) (layers_to_export project selected_layers).
Proof.
  assert (Hv : visible_layers (map (with_extent f) project)
               = map (with_extent f) (visible_layers project)).
  { unfold visible_layers, findLayers. rewrite !visible_fold. cbn [app].
    induction project as [|l project IH]; [reflexivity|].
    cbn [map filter with_extent isVisible].
    destruct (isVisible l); cbn [map]; rewrite IH; reflexivity. }
  destruct selected_layers as [[|n names]|]; try exact Hv.
  cbn [layers_to_export]. rewrite !resolve_names_flat_map.
  induction (n :: names) as [|a l IH]; [reflexivity|].
  cbn [flat_map]. rewrite map_app, IH, first_named_with_extent. reflexivity.
Qed.

Lemma dict_set_with_extent (k : string) (v : Layer Rectangle)
    (d : list (string * Layer Rectangle)) :
  dict_set k (with_extent f v)
    (map (fun kv => (fst kv, with_extent f (snd kv))) d)
  = map (fun kv => (fst kv, with_extent f (snd kv))) (dict_set k v d).
Proof.
  induction d as [|[k' v'] d IH]; [reflexivity|].
  cbn [map dict_set fst snd]. destruct (String.eqb k' k); [reflexivity|].
  cbn [map fst snd]. rewrite IH. reflexivity.
Qed.

Lemma layers_dict_with_extent (layers : list (Layer Rectangle)) :
  layers_dict (map (with_extent f) layers)
  = map (fun kv => (fst kv, with_extent f (snd kv))) (layers_dict layers).
Proof.
  induction layers as [|l layers IH] using rev_ind; [reflexivity|].
  rewrite map_app. cbn [map]. rewrite !layers_dict_snoc, IH.
  change (is_vector (with_extent f l)) with (is_vector l).
  change (id (with_extent f l)) with (id l).
  destruct (is_vector l); [|reflexivity]. apply dict_set_with_extent.
Qed.

Lemma run_exporter_with_extent (w : World) (layers : list (Layer Rectangle))
    (scale : Z) (st : state) :
  run_exporter w (map (with_extent f) layers) scale st
  = run_exporter w layers scale st.
Proof.
  unfold run_exporter. rewrite layers_dict_with_extent. cbv zeta.
  rewrite map_map. cbn [snd with_extent id].
  destruct (layers_dict layers); reflexivity.
Qed.

End ExtentUnused.

(** X12: the extents of the layers play no part in the run: the
    rectangle put together in lines 66-71 is used nowhere, so that the
    same project with any other extents, of any other type of
    rectangle, gives the same value and the same state. *)
Theorem extents_play_no_part (Rectangle Rectangle' : Type)
    (api : QgsRectangleApi Rectangle) (api' : QgsRectangleApi Rectangle')
    (f : Layer Rectangle -> Rectangle') (w : World)
    (project : list (Layer Rectangle)) (selected_layers : option (list string))
    (scale : Z) :
  export_layers_to_dxf w (map (with_extent f) project) selected_layers scale
  = export_layers_to_dxf w project selected_layers scale.
Proof.
  unfold export_layers_to_dxf. rewrite layers_to_export_with_extent.
  destruct (layers_to_export project selected_layers) as [|l ls];
    [reflexivity|].
  change (map (with_extent f) (l :: ls))
    with (with_extent f l :: map (with_extent f) ls).
  cbv zeta. unfold bind.
  change (with_extent f l :: map (with_extent f) ls)
    with (map (with_extent f) (l :: ls)).
  rewrite length_map.
  destruct (print (msg_found (length (l :: ls))) {| log := []; disk := None |})
    as [[[]|r] st]; [|reflexivity].
  rewrite run_exporter_with_extent. reflexivity.
Qed.

(** ** Further properties: the patch *)

Lemma version_rewrite_nil : version_rewrite [] = [].
Proof. exact (replace_absent "A" (py "C1015") (py "AC1021") [] eq_refl). Qed.

Lemma version_rewrite_absent (s : str) :
  contains (py "AC1015") s = false -> version_rewrite s = s.
Proof. exact (replace_absent "A" (py "C1015") (py "AC1021") s). Qed.

Lemma unit_sub_nil : unit_sub [] = [].
Proof. apply unit_sub_absent. reflexivity. Qed.

Lemma version_rewrite_pass (m t : str) :
  ~ In "A"%char m -> version_rewrite (m ++ t) = m ++ version_rewrite t.
Proof. exact (replace_pass "A" (py "C1015") (py "AC1021") m t). Qed.

Lemma version_rewrite_hit (t : str) :
  version_rewrite (py "AC1015" ++ t) = py "AC1021" ++ version_rewrite t.
Proof. exact (replace_hit "A" (py "C1015") (py "AC1021") t). Qed.

Lemma version_rewrite_miss (c : ascii) (s : str) :
  startswith (py "AC1015") (c :: s) = false ->
  version_rewrite (c :: s) = c :: version_rewrite s.
Proof. exact (replace_miss "A" (py "C1015") (py "AC1021") s c). Qed.

Lemma version_rewrite_other (c : ascii) (s : str) :
  c <> "A"%char -> version_rewrite (c :: s) = c :: version_rewrite s.
Proof.
  intros Hc. apply (version_rewrite_pass [c] s).
  intros [E|[]]. apply Hc. exact E.
Qed.

Lemma startswith_version_rewrite (w s : str) :
  ~ In "A"%char w -> startswith w (version_rewrite s) = startswith w s.
Proof. exact (startswith_replace "A" (py "C1015") (py "C1021") w s). Qed.

Lemma take_while_version_rewrite (cls : ascii -> bool) (s : str) :
  cls "A"%char = false ->
  take_while cls (version_rewrite s) = take_while cls s.
Proof.
  intros Hcls. induction s as [|c s IH]; [rewrite version_rewrite_nil; reflexivity|].
  destruct (cls c) eqn:Hc.
  - rewrite version_rewrite_other by (intros ->; congruence).
    cbn [take_while]. rewrite Hc, IH. reflexivity.
  - destruct (version_rewrite_head c s) as [r ->]. cbn [take_while].
    rewrite Hc. reflexivity.
Qed.

Lemma drop_while_version_rewrite (cls : ascii -> bool) (s : str) :
  cls "A"%char = false ->
  drop_while cls (version_rewrite s) = version_rewrite (drop_while cls s).
Proof.
  intros Hcls. induction s as [|c s IH]; [rewrite version_rewrite_nil; reflexivity|].
  destruct (cls c) eqn:Hc.
  - rewrite version_rewrite_other by (intros ->; congruence).
    cbn [drop_while]. rewrite Hc, IH. reflexivity.
  - destruct (version_rewrite_head c s) as [r Hr]. rewrite Hr. cbn [drop_while].
    rewrite Hc. symmetry. exact Hr.
Qed.

(** The version rewrite neither makes nor unmakes a unit record. *)
Lemma record_at_version_rewrite (s : str) :
  record_at (version_rewrite s)
  = match record_at s with
    | Some (ws1, ws2, ds, t) => Some (ws1, ws2, ds, version_rewrite t)
    | None => None
    end.
Proof.
  unfold record_at.
  rewrite startswith_version_rewrite by (cbn; intuition discriminate).
  destruct (startswith (py "$INSUNITS\n") s) eqn:E1; [|reflexivity].
  destruct (startswith_true _ _ E1) as [s1 ->].
  rewrite version_rewrite_pass by (cbn; intuition discriminate).
  change (skipn 10 (py "$INSUNITS\n" ++ ?x)) with x.
  rewrite (drop_while_version_rewrite is_space) by reflexivity.
  rewrite (take_while_version_rewrite is_space) by reflexivity.
  rewrite startswith_version_rewrite by (cbn; intuition discriminate).
  destruct (startswith (py "70\n") (drop_while is_space s1)) eqn:E2;
    [|reflexivity].
  destruct (startswith_true _ _ E2) as [s3 ->].
  rewrite version_rewrite_pass by (cbn; intuition discriminate).
  change (skipn 3 (py "70\n" ++ ?x)) with x.
  rewrite (drop_while_version_rewrite is_space) by reflexivity.
  rewrite (take_while_version_rewrite is_space) by reflexivity.
  rewrite (drop_while_version_rewrite is_digit) by reflexivity.
  rewrite (take_while_version_rewrite is_digit) by reflexivity.
  destruct (take_while is_digit (drop_while is_space s3)); reflexivity.
Qed.

Lemma has_unit_record_cons (c : ascii) (s : str) :
  has_unit_record (c :: s)
  = match record_at (c :: s) with
    | Some _ => true
    | None => has_unit_record s
    end.
Proof. reflexivity. Qed.

Lemma has_unit_record_pass (m t : str) :
  ~ In "$"%char m -> has_unit_record (m ++ t) = has_unit_record t.
Proof.
  induction m as [|c m IH]; intros Hm; [reflexivity|].
  cbn [app]. rewrite has_unit_record_cons, record_at_other.
  - apply IH. intros Hin. apply Hm. right. exact Hin.
  - intros ->. apply Hm. left. reflexivity.
Qed.

Lemma has_unit_record_version_rewrite (s : str) :
  has_unit_record (version_rewrite s) = has_unit_record s.
Proof.
  induction s as [|t IH|c s Hs IH] using (replace_scan_ind "A" (py "C1015")).
  - rewrite version_rewrite_nil. reflexivity.
  - change ("A"%char :: py "C1015") with (py "AC1015").
    rewrite version_rewrite_hit.
    rewrite !has_unit_record_pass by (cbn; intuition discriminate). exact IH.
  - pose proof (record_at_version_rewrite (c :: s)) as Hr.
    rewrite (version_rewrite_miss c s Hs) in *.
    rewrite !has_unit_record_cons, Hr, IH.
    destruct (record_at (c :: s)) as [[[[ws1 ws2] ds] t]|]; reflexivity.
Qed.

Lemma has_unit_record_found (s : str) :
  has_unit_record s = true <-> exists a b, s = a ++ b /\ record_at b <> None.
Proof.
  split.
  - induction s as [|c s IH].
    + cbn. discriminate.
    + rewrite has_unit_record_cons.
      destruct (record_at (c :: s)) eqn:E.
      * intros _. exists [], (c :: s). split; [reflexivity|]. congruence.
      * intros Hs. destruct (IH Hs) as (a & b & -> & Hb).
        exists (c :: a), b. split; [reflexivity|exact Hb].
  - intros (a & b & -> & Hb). induction a as [|c a IH].
    + destruct b as [|c b]; [contradiction Hb; reflexivity|].
      cbn [app]. rewrite has_unit_record_cons.
      destruct (record_at (c :: b)); [reflexivity|contradiction].
    + cbn [app]. rewrite has_unit_record_cons, IH.
      destruct (record_at (c :: a ++ b)); reflexivity.
Qed.

Lemma has_unit_record_named (s : str) :
  has_unit_record s = true -> contains (py "$INSUNITS") s = true.
Proof.
  intros Hs. apply has_unit_record_found in Hs.
  destruct Hs as (a & b & -> & Hb). apply contains_app_r.
  destruct (record_at b) as [[[[ws1 ws2] ds] t]|] eqn:E; [|contradiction].
  destruct (record_at_elim _ _ _ _ _ E) as (-> & _).
  apply contains_startswith.
  change (unit_record ws1 ws2 (ds ++ t))
    with (py "$INSUNITS" ++ py "\n" ++ ws1 ++ py "70\n" ++ ws2 ++ ds ++ t).
  apply startswith_app.
Qed.

Lemma unit_sub_no_record (s : str) :
  has_unit_record s = false -> unit_sub s = s.
Proof.
  induction s as [|c s IH]; [intros _; apply unit_sub_nil|].
  rewrite has_unit_record_cons.
  destruct (record_at (c :: s)) eqn:E; [discriminate|].
  intros Hs. rewrite unit_sub_miss by exact E. rewrite IH by exact Hs.
  reflexivity.
Qed.

(** In the result of the substitution every unit record reads six. *)
Lemma unit_sub_reads_six (s a b ws1 ws2 ds t : str) :
  unit_sub s = a ++ b -> record_at b = Some (ws1, ws2, ds, t) -> ds = py "6".
Proof.
  revert a.
  induction s as [| v1 v2 vs u H1 H2 Hd Hne Hu IH | c s Hr IH]
    using unit_scan_ind; intros a Hs Hb.
  - rewrite unit_sub_nil in Hs. symmetry in Hs. apply app_eq_nil in Hs.
    destruct Hs as [_ ->]. discriminate Hb.
  - rewrite unit_sub_hit in Hs by assumption.
    destruct a as [|x a].
    + cbn [app] in Hs. subst b.
      rewrite (record_at_intro v1 v2 (py "6") (unit_sub u)) in Hb;
        try assumption.
      * congruence.
      * repeat constructor.
      * discriminate.
      * apply stops_unit_sub. exact Hu.
    + rewrite unit_record_app in Hs.
      change (unit_record v1 v2 [])
        with ("$"%char :: (py "INSUNITS\n" ++ v1 ++ py "70\n" ++ v2 ++ []))
        in Hs.
      cbn [app] in Hs. injection Hs as _ Hs.
      assert (Hin : ~ In "$"%char
                        (py "INSUNITS\n" ++ v1 ++ py "70\n" ++ v2 ++ py "6")).
      { rewrite !in_app_iff. intros [Hi|[Hi|[Hi|[Hi|Hi]]]].
        - cbn in Hi. intuition discriminate.
        - revert Hi. apply (class_not_in is_space); [exact H1|reflexivity].
        - cbn in Hi. intuition discriminate.
        - revert Hi. apply (class_not_in is_space); [exact H2|reflexivity].
        - cbn in Hi. intuition discriminate. }
      assert (Hs' : (py "INSUNITS\n" ++ v1 ++ py "70\n" ++ v2 ++ py "6")
                    ++ unit_sub u = a ++ b).
      { rewrite <- Hs, app_nil_r, <- !app_assoc. reflexivity. }
      apply app_eq_app in Hs'. destruct Hs' as (l & [(E1 & E2)|(E1 & E2)]).
      * destruct l as [|y l].
        -- cbn [app] in E2. apply (IH []). ++ symmetry. exact E2. ++ exact Hb.
        -- subst b. cbn [app] in Hb. rewrite record_at_other in Hb;
             [discriminate|].
           intros ->. apply Hin. rewrite E1. apply in_or_app. right. left.
           reflexivity.
      * apply (IH l); [exact E2|exact Hb].
  - rewrite unit_sub_miss in Hs by exact Hr.
    destruct a as [|x a].
    + cbn [app] in Hs. subst b. rewrite record_at_unit_sub, Hr in Hb.
      discriminate Hb.
    + cbn [app] in Hs. injection Hs as _ Hs. apply (IH a); assumption.
Qed.

Lemma skeleton_app (a b : str) : skeleton (a ++ b) = skeleton a ++ skeleton b.
Proof. apply filter_app. Qed.

Lemma skeleton_digits (ds : str) : digits ds -> skeleton ds = [].
Proof.
  intros Hd. induction Hd as [|c ds Hc _ IH]; [reflexivity|].
  unfold skeleton in *. cbn [filter]. rewrite Hc. exact IH.
Qed.

Lemma skeleton_pointwise (s t : str) :
  Forall2 same_but_digits s t -> skeleton s = skeleton t.
Proof.
  intros H. induction H as [|a b s t [->|[Ha Hb]] _ IH]; [reflexivity| |].
  - unfold skeleton in *. cbn [filter]. rewrite IH. reflexivity.
  - unfold skeleton in *. cbn [filter]. rewrite Ha, Hb. exact IH.
Qed.

Lemma skeleton_unit_sub (s : str) : skeleton (unit_sub s) = skeleton s.
Proof.
  induction s as [| ws1 ws2 ds t H1 H2 Hd Hne Ht IH | c s Hr IH]
    using unit_scan_ind.
  - rewrite unit_sub_nil. reflexivity.
  - rewrite unit_sub_hit by assumption.
    rewrite (unit_record_app ws1 ws2 (py "6" ++ unit_sub t)).
    rewrite (unit_record_app ws1 ws2 (ds ++ t)).
    rewrite !skeleton_app, IH, (skeleton_digits ds Hd). reflexivity.
  - rewrite unit_sub_miss by exact Hr. unfold skeleton in *. cbn [filter].
    rewrite IH. reflexivity.
Qed.

Lemma length_unit_sub (s : str) : length (unit_sub s) <= length s.
Proof.
  induction s as [| ws1 ws2 ds t H1 H2 Hd Hne Ht IH | c s Hr IH]
    using unit_scan_ind.
  - rewrite unit_sub_nil. apply le_n.
  - rewrite unit_sub_hit by assumption.
    rewrite (unit_record_app ws1 ws2 (py "6" ++ unit_sub t)).
    rewrite (unit_record_app ws1 ws2 (ds ++ t)).
    rewrite !length_app. change (length (py "6")) with 1.
    destruct ds as [|d ds]; [contradiction|]. cbn [length]. lia.
  - rewrite unit_sub_miss by exact Hr. cbn [length]. lia.
Qed.

Lemma has_unit_record_unit_sub (s : str) :
  has_unit_record (unit_sub s) = has_unit_record s.
Proof.
  induction s as [| ws1 ws2 ds t H1 H2 Hd Hne Ht IH | c s Hr IH]
    using unit_scan_ind.
  - rewrite unit_sub_nil. reflexivity.
  - rewrite unit_sub_hit by assumption.
    transitivity true; [|symmetry]; apply has_unit_record_found.
    + exists [], (unit_record ws1 ws2 (py "6" ++ unit_sub t)).
      split; [reflexivity|].
      rewrite (record_at_intro ws1 ws2 (py "6") (unit_sub t));
        try assumption; try discriminate.
      * repeat constructor.
      * apply stops_unit_sub. exact Ht.
    + exists [], (unit_record ws1 ws2 (ds ++ t)). split; [reflexivity|].
      rewrite record_at_intro by assumption. discriminate.
  - rewrite unit_sub_miss by exact Hr.
    rewrite !has_unit_record_cons, record_at_unit_sub, Hr. exact IH.
Qed.

Lemma patch_substitute_named (content : str) :
  contains (py "$INSUNITS") content = true ->
  patch content = unit_sub (version_rewrite content).
Proof.
  intros Hc. apply patch_substitute. rewrite contains_version_rewrite.
  - exact Hc.
  - repeat constructor.
Qed.

Lemma patch_without_pair (content : str) :
  contains (py "$INSUNITS") content = false -> ~ has_header_pair content ->
  patch content = version_rewrite content.
Proof.
  intros Hc Hp. apply patch_skip.
  - rewrite contains_version_rewrite; [exact Hc|repeat constructor].
  - destruct (Z_lt_dec (-1)
                (find (py "ENDSEC") (version_rewrite content)
                   (find (py "HEADER") (version_rewrite content) 0)))
      as [Hlt|Hge]; [|lia].
    exfalso. apply Hp. apply header_pair_version_rewrite.
    apply header_end_found. exact Hlt.
Qed.

Lemma patch_with_pair (content : str) :
  contains (py "$INSUNITS") content = false -> has_header_pair content ->
  exists x y, version_rewrite content = x ++ py "ENDSEC" ++ y
              /\ patch content = x ++ units_def ++ py "ENDSEC" ++ y.
Proof.
  intros Hc Hp. apply patch_insert_at; [|exact Hp].
  rewrite contains_version_rewrite; [exact Hc|repeat constructor].
Qed.

Lemma header_pair_dec (s : str) : has_header_pair s \/ ~ has_header_pair s.
Proof.
  destruct (Z_lt_dec (-1) (find (py "ENDSEC") s (find (py "HEADER") s 0)))
    as [Hlt|Hge].
  - left. apply header_end_found. exact Hlt.
  - right. intros Hp. apply Hge. apply header_end_found. exact Hp.
Qed.

(** X13: line 158 rewrites the version in place: the text keeps its
    length, and no character changes but a digit into a digit, so that
    every word without digits, such as [HEADER], [ENDSEC] or
    [$INSUNITS], is found where it was, and the unit records are those
    of the file as exported. *)
Theorem version_rewrite_in_place (content : str) :
  length (version_rewrite content) = length content
  /\ Forall2 same_but_digits content (version_rewrite content)
  /\ (forall w start, digit_free w ->
        find w (version_rewrite content) start = find w content start
        /\ contains w (version_rewrite content) = contains w content)
  /\ record_at (version_rewrite content)
     = match record_at content with
       | Some (ws1, ws2, ds, t) => Some (ws1, ws2, ds, version_rewrite t)
       | None => None
       end
  /\ has_unit_record (version_rewrite content) = has_unit_record content.
Proof.
  repeat split.
  - apply length_version_rewrite.
  - apply version_rewrite_pointwise.
  - symmetry. apply find_pointwise; [assumption|apply version_rewrite_pointwise].
  - apply contains_version_rewrite. assumption.
  - apply record_at_version_rewrite.
  - apply has_unit_record_version_rewrite.
Qed.

(** X14: in the patched text every unit record reads six, wherever it
    stands: the records that were there (line 166) and the one put in
    (line 171). *)
Theorem every_unit_record_reads_six (content a b ws1 ws2 ds t : str) :
  patch content = a ++ b ->
  record_at b = Some (ws1, ws2, ds, t) ->
  ds = py "6".
Proof.
  intros Hp Hb.
  assert (Hrec : has_unit_record (patch content) = true).
  { apply has_unit_record_found. exists a, b. split; [exact Hp|].
    rewrite Hb. discriminate. }
  pose proof (patch_substitute_named (patch content)
                (has_unit_record_named _ Hrec)) as Hfix.
  rewrite patch_idempotent in Hfix.
  rewrite (version_rewrite_absent _ (patch_version_free content)) in Hfix.
  apply (unit_sub_reads_six (patch content) a b ws1 ws2 ds t);
    [rewrite <- Hfix; exact Hp|exact Hb].
Qed.

Lemma every_unit_record_reads_six_witness :
  patch scenario_A
  = py "HEADER\n" ++ py "$INSUNITS\n 70\n     6\nENDSEC\n  1\nAC1021\n"
  /\ record_at (py "$INSUNITS\n 70\n     6\nENDSEC\n  1\nAC1021\n")
     = Some (py " ", py "     ", py "6", py "\nENDSEC\n  1\nAC1021\n")
  /\ py "6" = py "6".
Proof.
  split; [vm_compute; reflexivity|]. split; [vm_compute; reflexivity|].
  apply (every_unit_record_reads_six scenario_A (py "HEADER\n")
           (py "$INSUNITS\n 70\n     6\nENDSEC\n  1\nAC1021\n")
           (py " ") (py "     ") (py "6") (py "\nENDSEC\n  1\nAC1021\n")).
  - vm_compute. reflexivity.
  - vm_compute. reflexivity.
Defined.

(** X15: the patched text names the unit directive exactly when the
    text did, or has a [HEADER] and an [ENDSEC] after it; and it holds
    a unit record exactly when the text did, or did not name the
    directive and has that pair: a text that names the directive
    without a record that the pattern reads is given none. *)
Theorem unit_directive_after_patch (content : str) :
  (contains (py "$INSUNITS") (patch content) = true
   <-> contains (py "$INSUNITS") content = true \/ has_header_pair content)
  /\ (has_unit_record (patch content) = true
      <-> has_unit_record content = true
          \/ (contains (py "$INSUNITS") content = false
              /\ has_header_pair content)).
Proof.
  destruct (contains (py "$INSUNITS") content) eqn:Hc.
  - rewrite (patch_substitute_named content Hc).
    rewrite contains_unit_sub, has_unit_record_unit_sub,
      has_unit_record_version_rewrite.
    rewrite contains_version_rewrite by repeat constructor.
    rewrite Hc. intuition discriminate.
  - assert (Hn : has_unit_record content = false).
    { destruct (has_unit_record content) eqn:E; [|reflexivity].
      apply has_unit_record_named in E. congruence. }
    destruct (header_pair_dec content) as [Hp|Hp].
    + destruct (patch_with_pair content Hc Hp) as (x & y & _ & ->).
      assert (Hrec : has_unit_record (x ++ units_def ++ py "ENDSEC" ++ y)
                     = true).
      { apply has_unit_record_found.
        exists (x ++ py "\n"),
               (unit_record (py " ") (py "     ")
                  (py "6" ++ py "\nENDSEC" ++ y)).
        split.
        - rewrite <- app_assoc. reflexivity.
        - rewrite record_at_intro; try discriminate; repeat constructor. }
      split; split; intros; auto.
      apply (has_unit_record_named _ Hrec).
    + rewrite (patch_without_pair content Hc Hp).
      rewrite has_unit_record_version_rewrite.
      rewrite contains_version_rewrite by repeat constructor.
      rewrite Hc, Hn. intuition discriminate.
Qed.

(** X16: the substitution of line 166 changes digits and nothing
    else, and never makes the text longer; so does the whole patch,
    unless it puts the record in, which makes the text longer by the
    22 characters of the record. *)
Theorem patch_changes_digits_only (content : str) :
  skeleton (version_rewrite content) = skeleton content
  /\ skeleton (unit_sub content) = skeleton content
  /\ length (unit_sub content) <= length content
  /\ (contains (py "$INSUNITS") content = true \/ ~ has_header_pair content ->
      skeleton (patch content) = skeleton content
      /\ length (patch content) <= length content)
  /\ (contains (py "$INSUNITS") content = false -> has_header_pair content ->
      length (patch content) = length content + 22).
Proof.
  assert (Hv : skeleton (version_rewrite content) = skeleton content).
  { symmetry. apply skeleton_pointwise, version_rewrite_pointwise. }
  split; [exact Hv|]. split; [apply skeleton_unit_sub|].
  split; [apply length_unit_sub|]. split.
  - intros Hcase.
    destruct (contains (py "$INSUNITS") content) eqn:Hc.
    + rewrite (patch_substitute_named content Hc), skeleton_unit_sub, Hv.
      split; [reflexivity|].
      etransitivity; [apply length_unit_sub|].
      rewrite length_version_rewrite. apply le_n.
    + destruct Hcase as [Hd|Hp]; [discriminate|].
      rewrite (patch_without_pair content Hc Hp), Hv,
        length_version_rewrite.
      split; [reflexivity|apply le_n].
  - intros Hc Hp.
    destruct (patch_with_pair content Hc Hp) as (x & y & Hx & ->).
    rewrite <- (length_version_rewrite content), Hx, !length_app.
    change (length units_def) with 22. lia.
Qed.

(** X17: the pattern of line 165 matches at the head of a text exactly
    when the text begins with the line [$INSUNITS], white space, the
    line [70], white space and digits; it then takes all the white
    space and all the digits there are: the first group ends before
    the digits and the match after the last of them. *)
Theorem pattern_reads_records (s : str) (e1 e : nat) :
  re_match insunits_pattern s = Some (e1, e)
  <-> exists ws1 ws2 ds t,
        s = unit_record ws1 ws2 (ds ++ t)
        /\ spaces ws1 /\ spaces ws2 /\ digits ds /\ ds <> []
        /\ stops is_digit t
        /\ e1 = 13 + length ws1 + length ws2
        /\ e = e1 + length ds.
Proof.
  rewrite re_match_record_at. split.
  - destruct (record_at s) as [[[[ws1 ws2] ds] t]|] eqn:E; [|discriminate].
    intros [= <- <-].
    destruct (record_at_elim _ _ _ _ _ E) as (Hs & H1 & H2 & Hd & Hne & Ht).
    exists ws1, ws2, ds, t. repeat split; assumption.
  - intros (ws1 & ws2 & ds & t & -> & H1 & H2 & Hd & Hne & Ht & -> & ->).
    rewrite record_at_intro by assumption. reflexivity.
Qed.

(** X18: a text without a unit record that the pattern reads comes out
    of line 166 as it went in; when it names the directive all the
    same, as in [$INSUNITSDEFSOURCE], the patch does no more than
    rewrite the version: no unit is set, with or without a header. *)
Theorem name_without_record_left_alone (content : str) :
  has_unit_record content = false ->
  unit_sub content = content
  /\ (contains (py "$INSUNITS") content = true ->
      patch content = version_rewrite content
      /\ has_unit_record (patch content) = false).
Proof.
  intros Hn. split; [apply unit_sub_no_record; exact Hn|].
  intros Hc. rewrite (patch_substitute_named content Hc).
  assert (Hv : has_unit_record (version_rewrite content) = false)
    by (rewrite has_unit_record_version_rewrite; exact Hn).
  rewrite (unit_sub_no_record _ Hv). split; [reflexivity|exact Hv].
Qed.

Lemma name_without_record_left_alone_witness :
  unit_sub (py "HEADER\n$INSUNITSDEFSOURCE\n 70\n     0\nAC1015\nENDSEC\n")
  = py "HEADER\n$INSUNITSDEFSOURCE\n 70\n     0\nAC1015\nENDSEC\n"
  /\ (contains (py "$INSUNITS")
        (py "HEADER\n$INSUNITSDEFSOURCE\n 70\n     0\nAC1015\nENDSEC\n") = true ->
      patch (py "HEADER\n$INSUNITSDEFSOURCE\n 70\n     0\nAC1015\nENDSEC\n")
      = version_rewrite
          (py "HEADER\n$INSUNITSDEFSOURCE\n 70\n     0\nAC1015\nENDSEC\n")
      /\ has_unit_record
           (patch (py "HEADER\n$INSUNITSDEFSOURCE\n 70\n     0\nAC1015\nENDSEC\n"))
         = false).
Proof.
  apply (name_without_record_left_alone
           (py "HEADER\n$INSUNITSDEFSOURCE\n 70\n     0\nAC1015\nENDSEC\n")).
  vm_compute. reflexivity.
Defined.

(** ** The claims on the patch, amended *)













